(** * scripts/earthly_name_consistency.py

    A shallow embedding of the guardrail script that compares the cdylib
    name declared in every [Cargo.toml] with the artifact name of the first
    [--out=] / [SAVE ARTIFACT] directive of the sibling [Earthfile].

    Python [str] values are modelled by [string]: sequences of the code
    points U+0000..U+00FF, on which [str.lower] maps character by
    character.  The module [Unicode] adds the capital sigma, which it maps
    by context.  The parsed manifest is the dictionary built by
    [tomllib.loads]; the tree walked by [ROOT.rglob] is the list of the
    directories that hold a [Cargo.toml], in discovery order.  Reading a
    file that exists is taken to succeed. *)

From Stdlib Require Import ZArith NArith String Ascii List Bool Lia.
From stdpp Require Import gmap strings.

Set Warnings "-register-all".

Local Open Scope string_scope.

(** ** Python primitives used by the script *)

Module Py.

(** The exception classes the script can let escape. *)
Inductive exn :=
| TOMLDecodeError
| AttributeError
| TypeError
| KeyError.

(** A computation that returns or raises. *)
Inductive result (A : Type) :=
| Ok (a : A)
| Raise (e : exn).
Arguments Ok {A} a.
Arguments Raise {A} e.

Definition bind {A B} (c : result A) (k : A -> result B) : result B :=
  match c with
  | Ok a => k a
  | Raise e => Raise e
  end.

(** Values produced by [tomllib.loads].  Of a float only its being zero is
    ever observed by the script, and of dates and times nothing is. *)
Inductive toml :=
| TString (s : string)
| TInteger (z : Z)
| TBool (b : bool)
| TFloat (is_zero : bool)
| TDateTime
| TArray (l : list toml)
| TTable (m : gmap string toml).

(** A Python value: [None] or a TOML value. *)
Abbreviation value := (option toml).

(** [bool(v)] *)
Definition truthy_toml (v : toml) : bool :=
  match v with
  | TString s => negb (String.eqb s "")
  | TInteger z => negb (Z.eqb z 0)
  | TBool b => b
  | TFloat is_zero => negb is_zero
  | TDateTime => true
  | TArray l => match l with [] => false | _ :: _ => true end
  | TTable m => negb (Nat.eqb (size m) 0)
  end.

Definition truthy (v : value) : bool :=
  match v with
  | None => false
  | Some t => truthy_toml t
  end.

(** [s[len(p):]] when [s.startswith(p)] *)
Fixpoint strip_prefix (p s : string) : option string :=
  match p, s with
  | EmptyString, _ => Some s
  | String a p', String b s' =>
      if Ascii.eqb a b then strip_prefix p' s' else None
  | String _ _, EmptyString => None
  end.

(** [needle in hay] on two strings *)
Fixpoint str_contains (needle hay : string) : bool :=
  match strip_prefix needle hay with
  | Some _ => true
  | None =>
      match hay with
      | EmptyString => false
      | String _ hay' => str_contains needle hay'
      end
  end.

(** [x == needle] for a string [needle] *)
Definition eq_str (needle : string) (x : toml) : bool :=
  match x with
  | TString s => String.eqb s needle
  | _ => false
  end.

(** [needle in container] for a string [needle] *)
Definition contains (needle : string) (container : toml) : result bool :=
  match container with
  | TArray l => Ok (existsb (eq_str needle) l)
  | TString s => Ok (str_contains needle s)
  | TTable m => Ok (match m !! needle with Some _ => true | None => false end)
  | TInteger _ | TBool _ | TFloat _ | TDateTime => Raise TypeError
  end.

(** [obj.get(key)]: only dictionaries have the method. *)
Definition get (obj : toml) (key : string) : result value :=
  match obj with
  | TTable m => Ok (m !! key)
  | _ => Raise AttributeError
  end.

(** [obj[key]] for a string [key] *)
Definition subscript (obj : toml) (key : string) : result toml :=
  match obj with
  | TTable m =>
      match m !! key with
      | Some v => Ok v
      | None => Raise KeyError
      end
  | _ => Raise TypeError
  end.

(** Upper-case letters of U+0000..U+00FF: A-Z, and U+00C0..U+00DE without
    the multiplication sign U+00D7. *)
Definition is_upper (c : ascii) : bool :=
  let n := N_of_ascii c in
  ((65 <=? n) && (n <=? 90) || (192 <=? n) && (n <=? 222) && negb (n =? 215))%N.

Definition lower_char (c : ascii) : ascii :=
  if is_upper c then ascii_of_N (N_of_ascii c + 32) else c.

(** [s.lower()] on a string over U+0000..U+00FF *)
Fixpoint lower (s : string) : string :=
  match s with
  | EmptyString => EmptyString
  | String c s' => String (lower_char c) (lower s')
  end.

(** [s.replace(old, new)] for one-character [old] and [new] *)
Fixpoint replace (old new : ascii) (s : string) : string :=
  match s with
  | EmptyString => EmptyString
  | String c s' =>
      String (if Ascii.eqb c old then new else c) (replace old new s')
  end.

(** The line feed, [chr(10)]. *)
Definition newline : string := String "010" "".

(** [sep.join(l)] *)
Definition join (sep : string) (l : list string) : string :=
  String.concat sep l.

End Py.

Export Py.

#[global] Instance result_bind : MBind result := fun A B k c => Py.bind c k.

(** ** The subset of [re] used by [EARTHLY_RE] *)

Module Re.

Inductive regex :=
| Lit (s : string)                 (* literal text *)
| Alt (r1 r2 : regex)              (* r1|r2, tried in this order *)
| Cat (r1 r2 : regex)              (* r1 followed by r2 *)
| PlusClass (cls : ascii -> bool)  (* [...]+, greedy *)
| Group (r : regex).               (* ( r ), the capturing group 1 *)

(** Zero or more characters of [cls], longest first, giving characters back
    one at a time when the rest of the pattern fails. *)
Fixpoint greedy_star {R} (cls : ascii -> bool) (s : string)
    (k : string -> option R) : option R :=
  match s with
  | String c s' =>
      if cls c then
        match greedy_star cls s' k with
        | Some m => Some m
        | None => k s
        end
      else k s
  | EmptyString => k s
  end.

(** Text consumed between the suffix [s] and its later suffix [s']. *)
Definition consumed (s s' : string) : string :=
  substring 0 (String.length s - String.length s') s.

(** Backtracking match of [r] at the start of [s]; [g] is the text held by
    group 1 so far and [k] matches what follows [r]. *)
Fixpoint match_here {R} (r : regex) (s : string) (g : option string)
    (k : string -> option string -> option R) : option R :=
  match r with
  | Lit l =>
      match strip_prefix l s with
      | Some s' => k s' g
      | None => None
      end
  | Alt r1 r2 =>
      match match_here r1 s g k with
      | Some m => Some m
      | None => match_here r2 s g k
      end
  | Cat r1 r2 => match_here r1 s g (fun s' g' => match_here r2 s' g' k)
  | PlusClass cls =>
      match s with
      | String c s' => if cls c then greedy_star cls s' (fun t => k t g) else None
      | EmptyString => None
      end
  | Group r1 => match_here r1 s g (fun s' _ => k s' (Some (consumed s s')))
  end.

(** A match object, of which the script reads [group(1)] only. *)
Record match_object := { group1 : option string }.

(** [pattern.match(s)]: the pattern anchored at the start of [s]. *)
Definition match_at (r : regex) (s : string) : option match_object :=
  match_here r s None (fun _ g => Some {| group1 := g |}).

(** [pattern.search(text)]: the match at the first start position that has
    one, positions tried from left to right up to the end of the text. *)
Fixpoint search (r : regex) (text : string) : option match_object :=
  match match_at r text with
  | Some m => Some m
  | None =>
      match text with
      | EmptyString => None
      | String _ text' => search r text'
      end
  end.

End Re.

(** ** The script *)

(** [[A-Za-z0-9_-]] *)
Definition name_char (c : ascii) : bool :=
  let n := N_of_ascii c in
  ((65 <=? n) && (n <=? 90) || (97 <=? n) && (n <=? 122)
   || (48 <=? n) && (n <=? 57) || (n =? 95) || (n =? 45))%N.

(** [re.compile(r"(?:--out=|SAVE ARTIFACT )([A-Za-z0-9_-]+)\.wasm")] *)
Definition EARTHLY_RE : Re.regex :=
  Re.Cat (Re.Alt (Re.Lit "--out=") (Re.Lit "SAVE ARTIFACT "))
         (Re.Cat (Re.Group (Re.PlusClass name_char)) (Re.Lit ".wasm")).

(** What [tomllib.loads(path.read_text())] makes of a manifest file. *)
Inductive manifest_file :=
| Malformed                          (* not valid TOML *)
| Parsed (data : gmap string toml).

(** A directory found by [ROOT.rglob("Cargo.toml")]: the path of
    [cargo.parent], its [Cargo.toml], and the text of its [Earthfile] when
    that file exists. *)
Record directory := {
  parent : string;
  cargo_toml : manifest_file;
  earthfile : option string
}.

Definition earthly_name (dir : directory) : option string :=
  match earthfile dir with
  | None => None
  | Some text =>
      match Re.search EARTHLY_RE text with
      | Some m => Re.group1 m
      | None => None
      end
  end.

Definition loads (path : manifest_file) : result (gmap string toml) :=
  match path with
  | Malformed => Raise TOMLDecodeError
  | Parsed data => Ok data
  end.

Definition cargo_name (path : manifest_file) : result value :=
  data ← loads path;
  let lib := default (TTable ∅) (data !! "lib") in
  crate_type ← get lib "crate-type";
  has ← contains "cdylib" (default (TArray []) crate_type);
  if negb has then Ok None else
  name ← get lib "name";
  if truthy name then Ok name else
  package ← subscript (TTable data) "package";
  pname ← subscript package "name";
  Ok (Some pname).

(** Of the values that are not strings only dates and times have a
    [replace] method, and theirs takes integers: [TypeError]. *)
Definition normalize (name : value) : result (option string) :=
  if negb (truthy name) then Ok None else
  match name with
  | Some (TString s) => Ok (Some (lower (replace "-" "_" s)))
  | Some TDateTime => Raise TypeError
  | _ => Raise AttributeError
  end.

(** [str(v)] inside the f-string.  Only a [str] gets there: on any other
    truthy name [normalize] has raised before the message is built. *)
Definition str (v : value) : string :=
  match v with
  | Some (TString s) => s
  | _ => ""
  end.

(** [f"{cargo.parent}: Cargo '{name}' vs Earthly '{e_name}'"] *)
Definition message (dir : directory) (name : value) (e_name : string) : string :=
  parent dir +:+ ": Cargo '" +:+ str name +:+ "' vs Earthly '" +:+ e_name +:+ "'".

(** One iteration of the [for cargo in ...] loop on the list [errors]. *)
Definition loop_body (errors : list string) (dir : directory)
    : result (list string) :=
  name ← cargo_name (cargo_toml dir);
  if negb (truthy name) then Ok errors else
  match earthly_name dir with
  | None => Ok errors
  | Some e_name =>
      if negb (truthy (Some (TString e_name))) then Ok errors else
      n_e ← normalize (Some (TString e_name));
      n_c ← normalize name;
      if negb (bool_decide (n_e = n_c))
      then Ok (errors ++ [message dir name e_name])%list
      else Ok errors
  end.

(** The whole loop over the tree. *)
Fixpoint scan (errors : list string) (tree : list directory)
    : result (list string) :=
  match tree with
  | [] => Ok errors
  | dir :: tree' =>
      errors' ← loop_body errors dir;
      scan errors' tree'
  end.

(** What the process leaves behind: the text on standard output, the exit
    status, and the exception that ended it when one escaped. *)
Record outcome := {
  stdout : string;
  exit_status : Z;
  uncaught : option exn
}.

Definition main (tree : list directory) : outcome :=
  match scan [] tree with
  | Raise e => {| stdout := ""; exit_status := 1; uncaught := Some e |}
  | Ok errors =>
      match errors with
      | _ :: _ =>
          {| stdout := join newline errors +:+ newline;
             exit_status := 1; uncaught := None |}
      | [] => {| stdout := ""; exit_status := 0; uncaught := None |}
      end
  end.

(** ** Vocabulary of the statements *)

(** The longest prefix of [s] made of [cls] characters, and what follows. *)
Fixpoint take_run (cls : ascii -> bool) (s : string) : string :=
  match s with
  | String c s' => if cls c then String c (take_run cls s') else ""
  | EmptyString => ""
  end.

Fixpoint drop_run (cls : ascii -> bool) (s : string) : string :=
  match s with
  | String c s' => if cls c then drop_run cls s' else s
  | EmptyString => ""
  end.

Fixpoint all_chars (cls : ascii -> bool) (s : string) : bool :=
  match s with
  | String c s' => cls c && all_chars cls s'
  | EmptyString => true
  end.

(** [s] begins with a directive that names [name]: one of the two keywords,
    a non-empty name over letters, digits, underscore and hyphen, and the
    [.wasm] suffix. *)
Definition directive (s name : string) : Prop :=
  exists kw rest,
    (kw = "--out=" \/ kw = "SAVE ARTIFACT ") /\
    name <> "" /\ all_chars name_char name = true /\
    s = kw +:+ name +:+ ".wasm" +:+ rest.

(** A directive naming [name] starts at offset [i] of [text]. *)
Definition directive_at (text : string) (i : nat) (name : string) : Prop :=
  exists pre s,
    text = pre +:+ s /\ String.length pre = i /\ directive s name.

(** The name a directive at the start of [s] would give, computed without
    the pattern: the run of name characters after the keyword, when it is
    not empty and [.wasm] follows it. *)
Definition name_after (body : string) : option string :=
  match take_run name_char body, strip_prefix ".wasm" (drop_run name_char body) with
  | String c n, Some _ => Some (String c n)
  | _, _ => None
  end.

Definition directive_name (s : string) : option string :=
  match strip_prefix "--out=" s, strip_prefix "SAVE ARTIFACT " s with
  | Some body, _ => name_after body
  | None, Some body => name_after body
  | None, None => None
  end.

(** What one iteration adds to the list: nothing, one line, or the
    exception it lets escape. *)
Definition verdict (dir : directory) : result (option string) :=
  match loop_body [] dir with
  | Ok [] => Ok None
  | Ok (line :: _) => Ok (Some line)
  | Raise e => Raise e
  end.

(** The iteration on [dir] returns normally. *)
Definition returns (dir : directory) : Prop :=
  exists o, verdict dir = Ok o.

(** The manifest [data] has a [lib] table [lib] whose [crate-type] list
    holds the string [cdylib]. *)
Definition declares_cdylib (data lib : gmap string toml) : Prop :=
  data !! "lib" = Some (TTable lib) /\
  exists types, lib !! "crate-type" = Some (TArray types) /\
    In (TString "cdylib") types.

(** The manifest [data] has no [lib] table, or one without a [crate-type]
    list, or one whose list does not hold the string [cdylib]. *)
Definition lacks_cdylib (data : gmap string toml) : Prop :=
  data !! "lib" = None \/
  exists lib, data !! "lib" = Some (TTable lib) /\
    (lib !! "crate-type" = None \/
     exists types, lib !! "crate-type" = Some (TArray types) /\
       ~ In (TString "cdylib") types).

(** Two characters that are equal, or a hyphen and an underscore, or the
    two cases of one letter. *)
Inductive similar_char : ascii -> ascii -> Prop :=
| similar_same c : similar_char c c
| similar_punct c1 c2 :
    (c1 = "-" \/ c1 = "_")%char -> (c2 = "-" \/ c2 = "_")%char ->
    similar_char c1 c2
| similar_upper_lower c1 c2 :
    is_upper c1 = true -> N_of_ascii c2 = (N_of_ascii c1 + 32)%N ->
    similar_char c1 c2
| similar_lower_upper c1 c2 :
    is_upper c2 = true -> N_of_ascii c1 = (N_of_ascii c2 + 32)%N ->
    similar_char c1 c2.

(** Two names that differ only by hyphen against underscore and by case. *)
Inductive similar : string -> string -> Prop :=
| similar_nil : similar "" ""
| similar_cons c1 c2 s1 s2 :
    similar_char c1 c2 -> similar s1 s2 ->
    similar (String c1 s1) (String c2 s2).

(** What [normalize] does to one character. *)
Definition normalize_char (c : ascii) : ascii :=
  lower_char (if Ascii.eqb c "-" then "_" else c).

(** Number of occurrences of the character [c] in [s]. *)
Fixpoint count_char (c : ascii) (s : string) : nat :=
  match s with
  | EmptyString => 0
  | String x s' => (if Ascii.eqb x c then 1 else 0) + count_char c s'
  end.

(** Sample manifests: a [lib] table with [crate-type = ["cdylib"]] and the
    given [name], and a [package] table with the given [name]. *)
Definition lib_table (name : option toml) : toml :=
  let lib := {["crate-type" := TArray [TString "cdylib"]]} in
  TTable (match name with Some n => <["name" := n]> lib | None => lib end).

Definition package_table (name : option toml) : toml :=
  TTable (match name with Some n => {["name" := n]} | None => ∅ end).

Definition cdylib_manifest (lib_name package_name : option toml) : manifest_file :=
  Parsed (<["lib" := lib_table lib_name]>
            {["package" := package_table package_name]}).

(** A TOML value that is a table, the one kind with a [get] method and
    with string subscripts. *)
Definition is_table (v : toml) : bool :=
  match v with
  | TTable _ => true
  | _ => false
  end.

(** A TOML value that [in] can look into: a string, an array or a table. *)
Definition is_container (v : toml) : bool :=
  match v with
  | TString _ | TArray _ | TTable _ => true
  | _ => false
  end.

(** A TOML value that is a string. *)
Definition is_string (v : toml) : bool :=
  match v with
  | TString _ => true
  | _ => false
  end.

(** [[a-z0-9_]] *)
Definition plain_char (c : ascii) : bool :=
  let n := N_of_ascii c in
  ((97 <=? n) && (n <=? 122) || (48 <=? n) && (n <=? 57) || (n =? 95))%N.

(** A character that is neither the hyphen nor an upper-case letter. *)
Definition settled_char (c : ascii) : bool :=
  negb (Ascii.eqb c "-") && negb (is_upper c).

(** A TOML value that is a date or a time. *)
Definition is_datetime (v : toml) : bool :=
  match v with
  | TDateTime => true
  | _ => false
  end.

(** What the call [name.replace("-", "_")] raises on a value that is not a
    string: dates and times have the method, with integer parameters. *)
Definition replace_error (v : toml) : exn :=
  if is_datetime v then TypeError else AttributeError.

(** ** [str.lower] beyond U+00FF: the final sigma

    The strings above stop at U+00FF.  The module below adds five letters
    of the Greek block, among them the capital sigma, the one code point
    that [str.lower] maps according to what surrounds it. *)

Module Unicode.

Inductive code_point :=
| Latin1 (c : ascii)   (* U+0000..U+00FF *)
| Alpha                (* U+0391 GREEK CAPITAL LETTER ALPHA *)
| Sigma                (* U+03A3 GREEK CAPITAL LETTER SIGMA *)
| alpha                (* U+03B1 GREEK SMALL LETTER ALPHA *)
| final_sigma          (* U+03C2 GREEK SMALL LETTER FINAL SIGMA *)
| sigma.               (* U+03C3 GREEK SMALL LETTER SIGMA *)

#[global] Instance code_point_eq_dec : EqDecision code_point.
Proof. solve_decision. Defined.

(** The property Cased on U+0000..U+00FF: the letters, with the two
    ordinal indicators and the micro sign. *)
Definition cased_latin1 (c : ascii) : bool :=
  let n := N_of_ascii c in
  ((65 <=? n) && (n <=? 90) || (97 <=? n) && (n <=? 122)
   || (n =? 170) || (n =? 181) || (n =? 186)
   || (192 <=? n) && (n <=? 214) || (216 <=? n) && (n <=? 246)
   || (248 <=? n) && (n <=? 255))%N.

(** The property Case_Ignorable on U+0000..U+00FF: apostrophe, full stop,
    colon, circumflex, grave, diaeresis, soft hyphen, macron, acute, middle
    dot and cedilla. *)
Definition case_ignorable_latin1 (c : ascii) : bool :=
  let n := N_of_ascii c in
  ((n =? 39) || (n =? 46) || (n =? 58) || (n =? 94) || (n =? 96)
   || (n =? 168) || (n =? 173) || (n =? 175) || (n =? 180) || (n =? 183)
   || (n =? 184))%N.

Definition cased (c : code_point) : bool :=
  match c with
  | Latin1 a => cased_latin1 a
  | Alpha | Sigma | alpha | final_sigma | sigma => true
  end.

Definition case_ignorable (c : code_point) : bool :=
  match c with
  | Latin1 a => case_ignorable_latin1 a
  | Alpha | Sigma | alpha | final_sigma | sigma => false
  end.

(** The first code point of [s] that is not case-ignorable. *)
Fixpoint first_not_ignorable (s : list code_point) : option code_point :=
  match s with
  | [] => None
  | c :: s' => if case_ignorable c then first_not_ignorable s' else Some c
  end.

(** The capital sigma is in final position when a cased letter comes
    before it and none comes after it, case-ignorable code points skipped
    on both sides.  [before] is the text before the sigma, nearest code
    point first. *)
Definition final_sigma_context (before after : list code_point) : bool :=
  match first_not_ignorable before with
  | Some c =>
      cased c &&
      match first_not_ignorable after with
      | Some c' => negb (cased c')
      | None => true
      end
  | None => false
  end.

(** The lower-case mapping of one code point, taken out of its context. *)
Definition to_lower (c : code_point) : code_point :=
  match c with
  | Latin1 a => Latin1 (lower_char a)
  | Alpha => alpha
  | Sigma => sigma
  | alpha => alpha
  | final_sigma => final_sigma
  | sigma => sigma
  end.

Fixpoint lower_from (before s : list code_point) : list code_point :=
  match s with
  | [] => []
  | c :: s' =>
      match c with
      | Sigma => if final_sigma_context before s' then final_sigma else sigma
      | _ => to_lower c
      end :: lower_from (c :: before) s'
  end.

(** [s.lower()] *)
Definition lower (s : list code_point) : list code_point := lower_from [] s.

(** [s.replace(old, new)] for one-character [old] and [new] *)
Definition replace (old new : code_point) (s : list code_point)
    : list code_point :=
  map (fun c => if bool_decide (c = old) then new else c) s.

(** [normalize] on a string or [None] *)
Definition normalize (name : option (list code_point))
    : option (list code_point) :=
  match name with
  | None | Some [] => None
  | Some s => Some (lower (replace (Latin1 "-") (Latin1 "_") s))
  end.


(** An upper-case letter and its lower-case form. *)
Inductive case_pair : code_point -> code_point -> Prop :=
| case_latin1 a b :
    is_upper a = true -> N_of_ascii b = (N_of_ascii a + 32)%N ->
    case_pair (Latin1 a) (Latin1 b)
| case_alpha : case_pair Alpha alpha
| case_sigma : case_pair Sigma sigma
| case_final_sigma : case_pair Sigma final_sigma.

(** Two code points that are equal, or a hyphen and an underscore, or the
    two cases of one letter. *)
Inductive similar_char : code_point -> code_point -> Prop :=
| similar_same c : similar_char c c
| similar_punct c1 c2 :
    (c1 = Latin1 "-" \/ c1 = Latin1 "_") ->
    (c2 = Latin1 "-" \/ c2 = Latin1 "_") ->
    similar_char c1 c2
| similar_upper_lower c1 c2 : case_pair c1 c2 -> similar_char c1 c2
| similar_lower_upper c1 c2 : case_pair c2 c1 -> similar_char c1 c2.

(** Two names that differ only by hyphen against underscore and by case. *)
Definition similar (a b : list code_point) : Prop := Forall2 similar_char a b.

End Unicode.

(** * Properties *)

(** ** Strings *)

Section Strings.

Lemma app_nil_str (s : string) : "" +:+ s = s.
Proof. reflexivity. Qed.

Lemma app_cons_str (c : ascii) (a b : string) :
  String c a +:+ b = String c (a +:+ b).
Proof. reflexivity. Qed.

Lemma app_assoc_str (a b c : string) : (a +:+ b) +:+ c = a +:+ b +:+ c.
Proof.
  induction a as [|x a IH]; [reflexivity|].
  rewrite !app_cons_str. now f_equal.
Qed.

Lemma length_app_str (a b : string) :
  String.length (a +:+ b) = String.length a + String.length b.
Proof.
  induction a as [|x a IH]; [reflexivity|].
  rewrite app_cons_str. simpl. now f_equal.
Qed.

Lemma strip_prefix_app (p s : string) : strip_prefix p (p +:+ s) = Some s.
Proof.
  induction p as [|a p IH]; [now destruct s|].
  rewrite app_cons_str. simpl. now rewrite Ascii.eqb_refl.
Qed.

Lemma strip_prefix_Some (p s s' : string) :
  strip_prefix p s = Some s' -> s = p +:+ s'.
Proof.
  revert s; induction p as [|a p IH]; intros s H.
  - destruct s; simpl in H; now inversion H.
  - destruct s as [|b s]; [discriminate|]. simpl in H.
    destruct (Ascii.eqb_spec a b) as [->|]; [|discriminate].
    rewrite app_cons_str. now rewrite (IH _ H).
Qed.

Lemma substring_app (a b : string) :
  substring 0 (String.length a) (a +:+ b) = a.
Proof.
  induction a as [|x a IH].
  - rewrite app_nil_str. now destruct b.
  - rewrite app_cons_str. simpl. now rewrite IH.
Qed.

End Strings.

(** ** Runs of characters of one class *)

Section Runs.

Variable cls : ascii -> bool.

Lemma run_split (s : string) :
  s = take_run cls s +:+ drop_run cls s.
Proof.
  induction s as [|c s IH]; simpl; [reflexivity|].
  destruct (cls c); [|reflexivity].
  rewrite app_cons_str. now rewrite <- IH.
Qed.

Lemma all_chars_take_run (s : string) :
  all_chars cls (take_run cls s) = true.
Proof.
  induction s as [|c s IH]; simpl; [reflexivity|].
  destruct (cls c) eqn:E; simpl; [now rewrite E | reflexivity].
Qed.

(** A run that is followed by a character outside the class is maximal. *)
Lemma take_run_app (n : string) (c : ascii) (rest : string) :
  all_chars cls n = true -> cls c = false ->
  take_run cls (n +:+ String c rest) = n /\
  drop_run cls (n +:+ String c rest) = String c rest.
Proof.
  intros Hn Hc. induction n as [|x n IH].
  - rewrite app_nil_str. simpl. now rewrite Hc.
  - rewrite app_cons_str. simpl in *.
    apply andb_prop in Hn as [Hx Hn]. rewrite Hx.
    destruct (IH Hn) as [-> ->]. now split.
Qed.

End Runs.

(** ** The pattern *)

Section Pattern.

Import Re.

(** When what follows the class cannot start with a class character, giving
    characters back never helps: only the longest run is tried with success. *)
Lemma greedy_star_longest {R} (cls : ascii -> bool) (k : string -> option R) :
  (forall c t, cls c = true -> k (String c t) = None) ->
  forall s, greedy_star cls s k = k (drop_run cls s).
Proof.
  intros Hk s. induction s as [|c s IH]; simpl; [reflexivity|].
  destruct (cls c) eqn:E; [|reflexivity].
  rewrite IH. destruct (k (drop_run cls s)) eqn:Ek; [reflexivity|].
  now apply Hk.
Qed.

Lemma consumed_run (cls : ascii -> bool) (s : string) :
  consumed s (drop_run cls s) = take_run cls s.
Proof.
  unfold consumed. rewrite (run_split cls s) at 1 3.
  rewrite length_app_str.
  replace (String.length (take_run cls s) + String.length (drop_run cls s)
           - String.length (drop_run cls s))
    with (String.length (take_run cls s)) by lia.
  apply substring_app.
Qed.

(** The part of the pattern after the keyword: [([A-Za-z0-9_-]+)\.wasm]. *)
Lemma match_after_keyword (body : string) (g : option string) :
  match_here (Cat (Group (PlusClass name_char)) (Lit ".wasm")) body g
    (fun _ g' => Some {| group1 := g' |})
  = (fun n => {| group1 := Some n |}) <$> name_after body.
Proof.
  unfold name_after. cbn [match_here].
  destruct body as [|c t]; [reflexivity|].
  cbn [take_run drop_run]. destruct (name_char c) eqn:Ec.
  - rewrite greedy_star_longest.
    + change (drop_run name_char t) with (drop_run name_char t).
      replace (consumed (String c t) (drop_run name_char t))
        with (String c (take_run name_char t)).
      * now destruct (strip_prefix ".wasm" (drop_run name_char t)).
      * pose proof (consumed_run name_char (String c t)) as H.
        cbn [take_run drop_run] in H. now rewrite Ec in H.
    + intros c' t' Hc'. cbn [strip_prefix].
      destruct (Ascii.eqb_spec "."%char c') as [<-|]; [discriminate | reflexivity].
  - reflexivity.
Qed.

Lemma match_here_Cat {R} r1 r2 s g (k : string -> option string -> option R) :
  match_here (Cat r1 r2) s g k
  = match_here r1 s g (fun s' g' => match_here r2 s' g' k).
Proof. reflexivity. Qed.

Lemma match_here_Alt {R} r1 r2 s g (k : string -> option string -> option R) :
  match_here (Alt r1 r2) s g k
  = match match_here r1 s g k with
    | Some m => Some m
    | None => match_here r2 s g k
    end.
Proof. reflexivity. Qed.

Lemma match_here_Lit {R} l s g (k : string -> option string -> option R) :
  match_here (Lit l) s g k
  = match strip_prefix l s with Some s' => k s' g | None => None end.
Proof. reflexivity. Qed.

(** The whole pattern anchored at the start of [s]. *)
Lemma match_at_EARTHLY_RE (s : string) :
  match_at EARTHLY_RE s = (fun n => {| group1 := Some n |}) <$> directive_name s.
Proof.
  unfold match_at, EARTHLY_RE, directive_name.
  rewrite match_here_Cat, match_here_Alt, !match_here_Lit.
  destruct (strip_prefix "--out=" s) as [body|] eqn:E1.
  - rewrite (match_after_keyword body None).
    destruct (name_after body) eqn:En; [reflexivity|].
    destruct (strip_prefix "SAVE ARTIFACT " s) as [body'|] eqn:E2; [|reflexivity].
    apply strip_prefix_Some in E1, E2. subst s. discriminate.
  - destruct (strip_prefix "SAVE ARTIFACT " s) as [body'|]; [|reflexivity].
    apply (match_after_keyword body' None).
Qed.

Lemma name_after_Some (body name : string) :
  name_after body = Some name <->
  name <> "" /\ all_chars name_char name = true /\
  exists rest, body = name +:+ ".wasm" +:+ rest.
Proof.
  unfold name_after. split.
  - pose proof (run_split name_char body) as Hs.
    pose proof (all_chars_take_run name_char body) as Ha.
    destruct (take_run name_char body) as [|c n]; [discriminate|].
    destruct (strip_prefix ".wasm" (drop_run name_char body)) as [rest|] eqn:E;
      [|discriminate].
    intros [= <-]. apply strip_prefix_Some in E. rewrite E in Hs.
    split; [discriminate|]. split; [exact Ha|]. now exists rest.
  - intros (Hne & Ha & rest & ->).
    change (".wasm" +:+ rest) with (String "." ("wasm" +:+ rest)).
    destruct (take_run_app name_char name "." ("wasm" +:+ rest) Ha eq_refl)
      as [-> ->].
    destruct name; [congruence|].
    change (String "." ("wasm" +:+ rest)) with (".wasm" +:+ rest).
    now rewrite strip_prefix_app.
Qed.

(** The computed name agrees with the declarative reading of a directive. *)
Lemma directive_name_spec (s name : string) :
  directive_name s = Some name <-> directive s name.
Proof.
  unfold directive_name, directive. split.
  - destruct (strip_prefix "--out=" s) as [body|] eqn:E1.
    + intros H. apply name_after_Some in H as (Hne & Ha & rest & ->).
      apply strip_prefix_Some in E1. exists "--out=", rest. auto.
    + destruct (strip_prefix "SAVE ARTIFACT " s) as [body|] eqn:E2; [|discriminate].
      intros H. apply name_after_Some in H as (Hne & Ha & rest & ->).
      apply strip_prefix_Some in E2. exists "SAVE ARTIFACT ", rest. auto.
  - intros (kw & rest & [-> | ->] & Hne & Ha & ->).
    + rewrite strip_prefix_app. apply name_after_Some. eauto.
    + change (strip_prefix "--out=" ("SAVE ARTIFACT " +:+ name +:+ ".wasm" +:+ rest))
        with (@None string).
      rewrite strip_prefix_app. apply name_after_Some. eauto.
Qed.

Lemma app_inv_length_str (a b a' b' : string) :
  a +:+ b = a' +:+ b' -> String.length a = String.length a' ->
  a = a' /\ b = b'.
Proof.
  revert a'; induction a as [|x a IH]; intros [|x' a'] H Hl;
    try discriminate.
  - now split.
  - rewrite !app_cons_str in H. injection H as -> H. injection Hl as Hl.
    destruct (IH _ H Hl) as [-> ->]. now split.
Qed.

(** [search] returns the match at the first offset that has one. *)
Lemma search_first (r : regex) (text : string) :
  match search r text with
  | Some m =>
      exists pre s, text = pre +:+ s /\ match_at r s = Some m /\
        forall pre' s', text = pre' +:+ s' ->
          String.length pre' < String.length pre -> match_at r s' = None
  | None => forall pre s, text = pre +:+ s -> match_at r s = None
  end.
Proof.
  induction text as [|c t IH]; simpl.
  - destruct (match_at r "") as [m|] eqn:E.
    + exists "", "". repeat split; [exact E|]. simpl. lia.
    + intros pre s H. destruct pre as [|c' pre']; [|discriminate].
      rewrite app_nil_str in H. now subst s.
  - destruct (match_at r (String c t)) as [m|] eqn:E.
    + exists "", (String c t). repeat split; [exact E|]. simpl. lia.
    + destruct (search r t) as [m|].
      * destruct IH as (pre & s & -> & Hm & Hfirst).
        exists (String c pre), s. repeat split; [exact Hm|].
        intros pre' s' H Hl. destruct pre' as [|c' pre'].
        -- rewrite app_nil_str in H. now subst s'.
        -- rewrite !app_cons_str in H. injection H as -> H.
           apply (Hfirst pre' s' H). simpl in Hl. lia.
      * intros pre s H. destruct pre as [|c' pre'].
        -- rewrite app_nil_str in H. now subst s.
        -- rewrite app_cons_str in H. injection H as -> H. now apply (IH pre').
Qed.

(** [EARTHLY_RE.search(text)] gives the name of the first directive of
    [text] by offset, and nothing when [text] has no directive. *)
Lemma search_EARTHLY_RE (text : string) :
  match search EARTHLY_RE text with
  | Some m =>
      exists name i, group1 m = Some name /\ directive_at text i name /\
        forall j n, j < i -> ~ directive_at text j n
  | None => forall i n, ~ directive_at text i n
  end.
Proof.
  pose proof (search_first EARTHLY_RE text) as H.
  destruct (search EARTHLY_RE text) as [m|].
  - destruct H as (pre & s & -> & Hm & Hfirst).
    rewrite match_at_EARTHLY_RE in Hm.
    destruct (directive_name s) as [name|] eqn:En; [|discriminate].
    injection Hm as <-. exists name, (String.length pre).
    split; [reflexivity|]. split.
    + exists pre, s. repeat split. now apply directive_name_spec.
    + intros j n Hj (pre' & s' & Heq & Hl & Hd).
      apply directive_name_spec in Hd.
      assert (match_at EARTHLY_RE s' = None) as Hn
        by (apply (Hfirst pre' s' Heq); lia).
      rewrite match_at_EARTHLY_RE, Hd in Hn. discriminate.
  - intros i n (pre & s & Heq & _ & Hd).
    apply directive_name_spec in Hd.
    specialize (H pre s Heq). rewrite match_at_EARTHLY_RE, Hd in H.
    discriminate.
Qed.

End Pattern.

(** ** The loop *)

Section Loop.

Lemma bind_Ok {A B} (a : A) (k : A -> result B) : (Ok a ≫= k) = k a.
Proof. reflexivity. Qed.

Lemma bind_Raise {A B} (e : exn) (k : A -> result B) : (Raise e ≫= k) = Raise e.
Proof. reflexivity. Qed.

(** The list [errors] only grows at its end, and what is added does not
    depend on it. *)
Lemma loop_body_verdict (errors : list string) (dir : directory) :
  loop_body errors dir =
  match verdict dir with
  | Ok None => Ok errors
  | Ok (Some line) => Ok (errors ++ [line])%list
  | Raise e => Raise e
  end.
Proof.
  unfold verdict, loop_body.
  destruct (cargo_name (cargo_toml dir)) as [name|e]; [|reflexivity].
  rewrite !bind_Ok.
  destruct (negb (truthy name)); [reflexivity|].
  destruct (earthly_name dir) as [e_name|]; [|reflexivity].
  destruct (negb (truthy (Some (TString e_name)))); [reflexivity|].
  destruct (normalize (Some (TString e_name))) as [n_e|e]; [|reflexivity].
  rewrite !bind_Ok.
  destruct (normalize name) as [n_c|e]; [|reflexivity].
  rewrite !bind_Ok.
  now destruct (negb (bool_decide (n_e = n_c))).
Qed.

Lemma scan_cons (errors : list string) (dir : directory) (tree : list directory) :
  scan errors (dir :: tree) = (loop_body errors dir ≫= fun errors' => scan errors' tree).
Proof. reflexivity. Qed.

Lemma scan_app (errors : list string) (pre post : list directory) :
  scan errors (pre ++ post) = (scan errors pre ≫= fun errors' => scan errors' post).
Proof.
  revert errors; induction pre as [|d pre IH]; intros errors; [reflexivity|].
  rewrite <- app_comm_cons, !scan_cons.
  destruct (loop_body errors d) as [errors'|e]; [|reflexivity].
  rewrite !bind_Ok. apply IH.
Qed.

(** An iteration that raises ends the loop: nothing after it runs. *)
Lemma scan_raises (errors : list string) (pre post : list directory)
    (dir : directory) (e : exn) :
  verdict dir = Raise e ->
  exists e', scan errors (pre ++ dir :: post) = Raise e' /\
    (Forall returns pre -> e' = e).
Proof.
  intros Hd. revert errors; induction pre as [|d pre IH]; intros errors.
  - exists e. rewrite app_nil_l, scan_cons, loop_body_verdict, Hd. auto.
  - rewrite <- app_comm_cons, scan_cons, loop_body_verdict.
    destruct (verdict d) as [[line|]|e0] eqn:Ed.
    + rewrite bind_Ok. destruct (IH (errors ++ [line])%list) as (e' & -> & He').
      exists e'. split; [reflexivity|]. intros Hf. inversion Hf; auto.
    + rewrite bind_Ok. destruct (IH errors) as (e' & -> & He').
      exists e'. split; [reflexivity|]. intros Hf. inversion Hf; auto.
    + exists e0. split; [reflexivity|]. intros Hf. inversion Hf as [|? ? [o Ho] ?].
      congruence.
Qed.

(** A directory that adds nothing can be left out of the tree. *)
Lemma scan_skip (errors : list string) (pre post : list directory)
    (dir : directory) :
  verdict dir = Ok None ->
  scan errors (pre ++ dir :: post) = scan errors (pre ++ post).
Proof.
  intros Hd. rewrite !scan_app.
  destruct (scan errors pre) as [errors'|e]; [|reflexivity].
  rewrite !bind_Ok, scan_cons, loop_body_verdict, Hd. reflexivity.
Qed.

(** A loop that ends normally has collected the lines of its directories,
    in order. *)
Lemma scan_Ok (tree : list directory) (errors errors' : list string) :
  scan errors tree = Ok errors' ->
  exists lines,
    Forall2 (fun dir o => verdict dir = Ok o) tree lines /\
    errors' = (errors ++ omap id lines)%list.
Proof.
  revert errors; induction tree as [|d tree IH]; intros errors H.
  - injection H as <-. exists []. split; [constructor|].
    now rewrite app_nil_r.
  - rewrite scan_cons, loop_body_verdict in H.
    destruct (verdict d) as [[line|]|e] eqn:Ed; [| |discriminate];
      rewrite bind_Ok in H; destruct (IH _ H) as (lines & Hf & ->).
    + exists (Some line :: lines). split; [now constructor|].
      simpl. now rewrite <- app_assoc.
    + exists (None :: lines). split; [now constructor|]. reflexivity.
Qed.

End Loop.

(** ** The recipe scanner *)

Section Recipe.

Lemma directive_nonempty (s name : string) : directive s name -> name <> "".
Proof. now intros (kw & rest & _ & Hne & _). Qed.

(** At one offset a text has at most one directive name. *)
Lemma directive_at_unique (text : string) (i : nat) (n1 n2 : string) :
  directive_at text i n1 -> directive_at text i n2 -> n1 = n2.
Proof.
  intros (p1 & s1 & -> & <- & H1) (p2 & s2 & Heq & Hl & H2).
  destruct (app_inv_length_str _ _ _ _ Heq) as [_ ->]; [now symmetry|].
  apply directive_name_spec in H1, H2. congruence.
Qed.

(** What [earthly_name] returns, in terms of the directives of the file. *)
Lemma earthly_name_spec (dir : directory) :
  match earthly_name dir with
  | Some name =>
      exists text i, earthfile dir = Some text /\ directive_at text i name /\
        forall j n, j < i -> ~ directive_at text j n
  | None =>
      earthfile dir = None \/
      exists text, earthfile dir = Some text /\ forall i n, ~ directive_at text i n
  end.
Proof.
  unfold earthly_name. destruct (earthfile dir) as [text|]; [|now left].
  pose proof (search_EARTHLY_RE text) as H.
  destruct (Re.search EARTHLY_RE text) as [m|].
  - destruct H as (name & i & -> & Hd & Hfirst). eauto.
  - right. eauto.
Qed.

Lemma earthly_name_first (dir : directory) (text name : string) :
  earthfile dir = Some text ->
  earthly_name dir = Some name <->
  exists i, directive_at text i name /\ forall j n, j < i -> ~ directive_at text j n.
Proof.
  intros Hf. pose proof (earthly_name_spec dir) as H. split.
  - intros E. rewrite E in H. destruct H as (text' & i & Hf' & Hd & Hfirst).
    assert (text' = text) as -> by congruence. eauto.
  - intros (i & Hd & Hfirst).
    destruct (earthly_name dir) as [name'|].
    + destruct H as (text' & i' & Hf' & Hd' & Hfirst').
      assert (text' = text) as -> by congruence.
      assert (i = i') as <-.
      { destruct (Nat.lt_trichotomy i i') as [Hlt|[Heq|Hgt]]; [|exact Heq|].
        - now destruct (Hfirst' _ _ Hlt Hd).
        - now destruct (Hfirst _ _ Hgt Hd'). }
      f_equal. exact (directive_at_unique _ _ _ _ Hd' Hd).
    + destruct H as [H|(text' & Hf' & Hnone)]; [congruence|].
      assert (text' = text) as -> by congruence.
      now destruct (Hnone _ _ Hd).
Qed.

Lemma earthly_name_nonempty (dir : directory) (name : string) :
  earthly_name dir = Some name -> name <> "".
Proof.
  intros E. pose proof (earthly_name_spec dir) as H. rewrite E in H.
  destruct H as (text & i & _ & (pre & s & _ & _ & Hd) & _).
  exact (directive_nonempty _ _ Hd).
Qed.

End Recipe.

(** ** The manifest parser *)

Section Manifest.

Lemma existsb_eq_str (needle : string) (l : list toml) :
  existsb (eq_str needle) l = true <-> In (TString needle) l.
Proof.
  rewrite existsb_exists. split.
  - intros (x & Hin & Hx). destruct x; try discriminate.
    simpl in Hx. apply String.eqb_eq in Hx. now subst.
  - intros Hin. exists (TString needle). split; [exact Hin|].
    simpl. apply String.eqb_refl.
Qed.

(** On a manifest that declares a cdylib target the parser reaches the
    choice of the name. *)
Lemma cargo_name_cdylib (data lib : gmap string toml) :
  declares_cdylib data lib ->
  cargo_name (Parsed data) =
  if truthy (lib !! "name") then Ok (lib !! "name")
  else (package ← subscript (TTable data) "package";
        pname ← subscript package "name";
        Ok (Some pname)).
Proof.
  intros (Hlib & types & Hct & Hin).
  unfold cargo_name. simpl loads. rewrite bind_Ok, Hlib. simpl default.
  simpl get. rewrite !bind_Ok, Hct. simpl default. simpl contains.
  apply existsb_eq_str in Hin. rewrite Hin, bind_Ok. reflexivity.
Qed.

(** On a manifest without the cdylib marker the parser returns [None]. *)
Lemma cargo_name_not_cdylib (data : gmap string toml) :
  lacks_cdylib data -> cargo_name (Parsed data) = Ok None.
Proof.
  unfold cargo_name. simpl loads. rewrite bind_Ok.
  intros [Hlib|(lib & Hlib & [Hct|(types & Hct & Hnot)])]; rewrite Hlib;
    simpl default; simpl get; rewrite bind_Ok.
  - rewrite lookup_empty. reflexivity.
  - rewrite Hct. reflexivity.
  - rewrite Hct. simpl default. simpl contains.
    destruct (existsb (eq_str "cdylib") types) eqn:E; [|reflexivity].
    apply existsb_eq_str in E. contradiction.
Qed.

End Manifest.

(** ** The normalizer and the comparison *)

Section Comparison.

Lemma truthy_str (s : string) : truthy (Some (TString s)) = true <-> s <> "".
Proof.
  simpl. rewrite negb_true_iff. apply String.eqb_neq.
Qed.

Lemma normalize_str (s : string) :
  s <> "" -> normalize (Some (TString s)) = Ok (Some (lower (replace "-" "_" s))).
Proof.
  intros H. apply truthy_str in H. unfold normalize. now rewrite H.
Qed.

Lemma normalize_falsy (v : value) : truthy v = false -> normalize v = Ok None.
Proof. intros H. unfold normalize. now rewrite H. Qed.

(** On a truthy value that is not a [str] the call of [replace] raises. *)
Lemma normalize_truthy (v : value) :
  truthy v = true ->
  (exists s, v = Some (TString s) /\ s <> "") \/ exists e, normalize v = Raise e.
Proof.
  intros H. unfold normalize. rewrite H. simpl.
  destruct v as [[s| | | | | |]|]; eauto.
  left. exists s. split; [reflexivity|]. now apply truthy_str.
Qed.

(** When an iteration adds a line, which line it is. *)
Lemma verdict_line (dir : directory) (line : string) :
  verdict dir = Ok (Some line) <->
  exists name e_name,
    cargo_name (cargo_toml dir) = Ok (Some (TString name)) /\ name <> "" /\
    earthly_name dir = Some e_name /\
    lower (replace "-" "_" e_name) <> lower (replace "-" "_" name) /\
    line = message dir (Some (TString name)) e_name.
Proof.
  unfold verdict, loop_body. split.
  - destruct (cargo_name (cargo_toml dir)) as [name|e]; [|discriminate].
    rewrite bind_Ok. destruct (truthy name) eqn:Ht; [|discriminate].
    destruct (earthly_name dir) as [e_name|] eqn:Ee; [|discriminate].
    pose proof (earthly_name_nonempty _ _ Ee) as Hne.
    rewrite (proj2 (truthy_str e_name) Hne), (normalize_str _ Hne), bind_Ok.
    simpl negb.
    destruct (normalize_truthy _ Ht) as [(s & -> & Hs)|Hr].
    + rewrite (normalize_str _ Hs), bind_Ok.
      case_bool_decide as Hd; simpl negb; [discriminate|].
      intros [= <-]. exists s, e_name. repeat split; auto. congruence.
    + destruct Hr as [e Hr]. rewrite Hr. discriminate.
  - intros (name & e_name & Hc & Hn & He & Hd & ->).
    pose proof (earthly_name_nonempty _ _ He) as Hne.
    rewrite Hc, bind_Ok, (proj2 (truthy_str name) Hn), He,
      (proj2 (truthy_str e_name) Hne).
    simpl negb.
    rewrite (normalize_str _ Hne), bind_Ok, (normalize_str _ Hn), bind_Ok.
    case_bool_decide as Hdec; simpl negb; [congruence | reflexivity].
Qed.

(** An iteration adds nothing when either name is missing. *)
Lemma verdict_no_cargo_name (dir : directory) (name : value) :
  cargo_name (cargo_toml dir) = Ok name -> truthy name = false ->
  verdict dir = Ok None.
Proof.
  intros Hc Ht. unfold verdict, loop_body. now rewrite Hc, bind_Ok, Ht.
Qed.

Lemma verdict_no_earthly_name (dir : directory) (name : value) :
  cargo_name (cargo_toml dir) = Ok name -> earthly_name dir = None ->
  verdict dir = Ok None.
Proof.
  intros Hc He. unfold verdict, loop_body. rewrite Hc, bind_Ok, He.
  now destruct (negb (truthy name)).
Qed.

(** An exception of the manifest parser escapes the iteration. *)
Lemma verdict_cargo_raises (dir : directory) (e : exn) :
  cargo_name (cargo_toml dir) = Raise e -> verdict dir = Raise e.
Proof. intros Hc. unfold verdict, loop_body. now rewrite Hc. Qed.

End Comparison.

(** ** The report and the exit status *)

Section Report.

Lemma main_raises (tree : list directory) (e : exn) :
  scan [] tree = Raise e ->
  main tree = {| stdout := ""; exit_status := 1; uncaught := Some e |}.
Proof. intros H. unfold main. now rewrite H. Qed.

Lemma main_skip (pre post : list directory) (dir : directory) :
  verdict dir = Ok None -> main (pre ++ dir :: post) = main (pre ++ post).
Proof. intros H. unfold main. now rewrite (scan_skip [] pre post dir H). Qed.

Lemma scan_nothing (errors : list string) (tree : list directory) :
  Forall (fun d => verdict d = Ok None) tree -> scan errors tree = Ok errors.
Proof.
  induction 1 as [|d tree Hd _ IH]; [reflexivity|].
  now rewrite scan_cons, loop_body_verdict, Hd, bind_Ok.
Qed.

(** A directory whose iteration raises aborts the run, whatever the rest of
    the tree holds. *)
Lemma main_aborts (pre post : list directory) (dir : directory) (e : exn) :
  verdict dir = Raise e ->
  let run := main (pre ++ dir :: post) in
  stdout run = "" /\ exit_status run = 1%Z /\
  (exists e', uncaught run = Some e') /\
  (Forall returns pre -> uncaught run = Some e).
Proof.
  intros Hd. destruct (scan_raises [] pre post dir e Hd) as (e' & Hs & He').
  simpl. rewrite (main_raises _ _ Hs). simpl.
  repeat split; eauto. intros Hf. now rewrite (He' Hf).
Qed.

Lemma count_char_app (c : ascii) (a b : string) :
  count_char c (a +:+ b) = count_char c a + count_char c b.
Proof.
  induction a as [|x a IH]; [reflexivity|].
  rewrite app_cons_str. simpl. rewrite IH. lia.
Qed.

(** Joined lines that hold no line feed of their own are separated by one
    line feed each. *)
Lemma count_newline_join (l : list string) :
  Forall (fun line => count_char "010" line = 0) l ->
  count_char "010" (join newline l) = length l - 1.
Proof.
  induction 1 as [|x l Hx Hl IH]; [reflexivity|].
  unfold join in *. simpl. destruct l as [|y l]; [simpl; lia|].
  rewrite !count_char_app, Hx, IH. simpl. lia.
Qed.

End Report.

(** ** Case and punctuation *)

Section Normalizer.

Lemma lower_replace_cons (c : ascii) (s : string) :
  lower (replace "-" "_" (String c s))
  = String (normalize_char c) (lower (replace "-" "_" s)).
Proof. reflexivity. Qed.




Lemma normalize_char_case (c : ascii) :
  is_upper c = true ->
  normalize_char c = ascii_of_N (N_of_ascii c + 32) /\
  normalize_char (ascii_of_N (N_of_ascii c + 32)) = ascii_of_N (N_of_ascii c + 32).
Proof.
  destruct c as [[] [] [] [] [] [] [] []]; vm_compute; intros H;
    try discriminate H; split; reflexivity.
Qed.

Lemma normalize_char_similar (c1 c2 : ascii) :
  similar_char c1 c2 -> normalize_char c1 = normalize_char c2.
Proof.
  intros [c|a b [-> | ->] [-> | ->]|a b Hup HN|a b Hup HN]; try reflexivity.
  - assert (b = ascii_of_N (N_of_ascii a + 32)) as ->
      by (rewrite <- HN; symmetry; apply ascii_N_embedding).
    destruct (normalize_char_case a Hup) as [-> ->]. reflexivity.
  - assert (a = ascii_of_N (N_of_ascii b + 32)) as ->
      by (rewrite <- HN; symmetry; apply ascii_N_embedding).
    destruct (normalize_char_case b Hup) as [-> ->]. reflexivity.
Qed.

Lemma lower_replace_similar (a b : string) :
  similar a b -> lower (replace "-" "_" a) = lower (replace "-" "_" b).
Proof.
  induction 1 as [|c1 c2 s1 s2 Hc _ IH]; [reflexivity|].
  rewrite !lower_replace_cons, IH, (normalize_char_similar _ _ Hc). reflexivity.
Qed.




Lemma lower_replace_nonempty (s : string) :
  s <> "" -> lower (replace "-" "_" s) <> "".
Proof. destruct s; [congruence | discriminate]. Qed.




End Normalizer.

(** * Specification statements *)

(** Closes [declares_cdylib data lib] on a concrete manifest whose list of
    crate types starts with [cdylib]. *)
Ltac cdylib_declared :=
  split; [reflexivity|];
  exists [TString "cdylib"]; split; [reflexivity | now left].

Section Statements.

Lemma loop_body_adds (errors : list string) (dir : directory) (line : string) :
  loop_body errors dir = Ok (errors ++ [line])%list <-> verdict dir = Ok (Some line).
Proof.
  rewrite loop_body_verdict. split.
  - destruct (verdict dir) as [[l|]|e]; intros H; [| |discriminate].
    + injection H as H. apply app_inv_head in H. congruence.
    + injection H as H. apply (f_equal (@length string)) in H.
      rewrite length_app in H. simpl in H. lia.
  - now intros ->.
Qed.

Lemma loop_body_keeps (errors : list string) (dir : directory) :
  verdict dir = Ok None -> loop_body errors dir = Ok errors.
Proof. intros H. now rewrite loop_body_verdict, H. Qed.

Lemma normalize_differ (a b : string) :
  a <> "" -> b <> "" ->
  normalize (Some (TString a)) <> normalize (Some (TString b)) <->
  lower (replace "-" "_" a) <> lower (replace "-" "_" b).
Proof.
  intros Ha Hb. rewrite (normalize_str _ Ha), (normalize_str _ Hb).
  split; intros H E; apply H; congruence.
Qed.

(** C1 (amended).  An iteration appends a mismatch line for its directory
    if and only if the manifest parser returns a non-empty string, the
    recipe scan of the same directory returns a name, and the normalized
    forms of the two differ; the line is then built from the two names as
    they were read.  When the manifest parser returns a falsy value ([None]
    or an empty name), or the recipe scan returns [None], the list of
    errors is left as it was. *)
Theorem mismatch_iff_names_differ (dir : directory) (errors : list string)
    (line : string) :
  (loop_body errors dir = Ok (errors ++ [line])%list <->
   exists name e_name,
     cargo_name (cargo_toml dir) = Ok (Some (TString name)) /\ name <> "" /\
     earthly_name dir = Some e_name /\
     normalize (Some (TString e_name)) <> normalize (Some (TString name)) /\
     line = message dir (Some (TString name)) e_name) /\
  (forall name, cargo_name (cargo_toml dir) = Ok name -> truthy name = false ->
     loop_body errors dir = Ok errors) /\
  (forall name, cargo_name (cargo_toml dir) = Ok name -> earthly_name dir = None ->
     loop_body errors dir = Ok errors).
Proof.
  split; [|split].
  - rewrite loop_body_adds, verdict_line. split.
    + intros (name & e_name & Hc & Hn & He & Hd & Hl).
      exists name, e_name. repeat split; auto.
      apply normalize_differ; auto. exact (earthly_name_nonempty _ _ He).
    + intros (name & e_name & Hc & Hn & He & Hd & Hl).
      exists name, e_name. repeat split; auto.
      apply normalize_differ in Hd; auto. exact (earthly_name_nonempty _ _ He).
  - intros name Hc Ht. apply loop_body_keeps.
    exact (verdict_no_cargo_name _ _ Hc Ht).
  - intros name Hc He. apply loop_body_keeps.
    exact (verdict_no_earthly_name _ _ Hc He).
Qed.

(** A mismatched directory: the manifest says [foo], the recipe [bar]. *)
Lemma mismatch_iff_names_differ_witness :
  let dir := {| parent := "modules/foo";
                cargo_toml := cdylib_manifest (Some (TString "foo")) None;
                earthfile := Some "RUN build --out=bar.wasm" |} in
  loop_body [] dir = Ok ["modules/foo: Cargo 'foo' vs Earthly 'bar'"].
Proof.
  intros dir.
  apply (proj1 (mismatch_iff_names_differ dir []
                  "modules/foo: Cargo 'foo' vs Earthly 'bar'")).
  exists "foo", "bar". repeat split; try reflexivity; try discriminate.
Defined.

(** C1, as first stated, fails on a manifest whose package name is the
    empty string: the parser returns that string, which is not [None], the
    recipe names [a], the normalized forms [None] and [a] differ, and yet
    the iteration adds no line. *)
Lemma mismatch_empty_cargo_name :
  let dir := {| parent := "modules/foo";
                cargo_toml := cdylib_manifest None (Some (TString ""));
                earthfile := Some "--out=a.wasm" |} in
  (exists name e_name,
     cargo_name (cargo_toml dir) = Ok (Some name) /\
     earthly_name dir = Some e_name /\
     normalize (Some (TString e_name)) <> normalize (Some name)) /\
  ~ (exists line, loop_body [] dir = Ok [line]).
Proof.
  split.
  - exists (TString ""), "a". repeat split; try reflexivity. discriminate.
  - intros [line H]. vm_compute in H. discriminate.
Qed.

(** C2.  On a directory whose manifest declares the cdylib [foo] and whose
    recipe holds [SAVE ARTIFACT ./target foo-mod.wasm], the pattern wants
    the name right after [SAVE ARTIFACT ], finds [./target] there, and the
    scan returns [None]: no name [foo-mod] is extracted, no line is added,
    the run prints nothing and exits with status 0. *)
Theorem save_artifact_with_source_path (parent : string) :
  let dir := {| parent := parent;
                cargo_toml := cdylib_manifest (Some (TString "foo")) None;
                earthfile := Some "SAVE ARTIFACT ./target foo-mod.wasm" |} in
  cargo_name (cargo_toml dir) = Ok (Some (TString "foo")) /\
  earthly_name dir = None /\
  (forall errors, loop_body errors dir = Ok errors) /\
  main [dir] = {| stdout := ""; exit_status := 0; uncaught := None |}.
Proof.
  intros dir.
  assert (cargo_name (cargo_toml dir) = Ok (Some (TString "foo"))) as Hc
    by reflexivity.
  assert (earthly_name dir = None) as He by reflexivity.
  pose proof (verdict_no_earthly_name dir _ Hc He) as Hv.
  split; [exact Hc|]. split; [exact He|]. split.
  - intros errors. now apply loop_body_keeps.
  - unfold main. now rewrite (scan_nothing [] [dir]) by (repeat constructor; exact Hv).
Qed.

(** C3.  When the loop ends normally with the list [errors]: if the list is
    not empty the run prints its entries joined by line feeds, followed by
    the line feed of [print], and exits with status 1, which makes one line
    per entry when no entry holds a line feed of its own; if the list is
    empty the run prints nothing and exits with status 0.  The list has one
    entry for each directory whose iteration added a line, in order. *)
Theorem report_and_exit_status (tree : list directory) (errors : list string) :
  scan [] tree = Ok errors ->
  let run := main tree in
  uncaught run = None /\
  (errors <> [] ->
     stdout run = join newline errors +:+ newline /\ exit_status run = 1%Z /\
     (Forall (fun line => count_char "010" line = 0) errors ->
      count_char "010" (stdout run) = length errors)) /\
  (errors = [] -> stdout run = "" /\ exit_status run = 0%Z) /\
  (exists lines,
     Forall2 (fun dir o => verdict dir = Ok o) tree lines /\
     errors = omap id lines).
Proof.
  intros Hs run. subst run. unfold main. rewrite Hs.
  split; [now destruct errors|]. split; [|split].
  - intros Hne. destruct errors as [|l errors]; [congruence|].
    cbn [stdout exit_status].
    split; [reflexivity|]. split; [reflexivity|]. intros Hf.
    rewrite count_char_app, (count_newline_join _ Hf).
    change (count_char "010" newline) with 1. cbn [length]. lia.
  - now intros ->.
  - destruct (scan_Ok _ _ _ Hs) as (lines & Hf & ->). now exists lines.
Qed.

(** A tree with a consistent directory and a mismatched one. *)
Lemma report_and_exit_status_witness :
  let tree := [ {| parent := "a";
                   cargo_toml := cdylib_manifest (Some (TString "foo-bar")) None;
                   earthfile := Some "--out=foo_bar.wasm" |};
                {| parent := "b";
                   cargo_toml := cdylib_manifest None (Some (TString "foo"));
                   earthfile := Some "SAVE ARTIFACT foo-mod.wasm" |} ] in
  stdout (main tree) = "b: Cargo 'foo' vs Earthly 'foo-mod'" +:+ newline /\
  exit_status (main tree) = 1%Z.
Proof.
  intros tree.
  destruct (report_and_exit_status tree ["b: Cargo 'foo' vs Earthly 'foo-mod'"]
              eq_refl) as (_ & H & _).
  destruct H as (Hout & Hexit & _); [discriminate|]. now split.
Defined.

(** C4.  A manifest that is not valid TOML makes the manifest parser raise
    the parse error, and the run that meets it aborts: nothing is printed
    on standard output, the exit status is 1, whatever the directories
    before and after it hold; the exception that ends the run is the parse
    error as soon as the iterations before it return. *)
Theorem malformed_manifest_aborts (pre post : list directory) (dir : directory) :
  cargo_toml dir = Malformed ->
  let run := main (pre ++ dir :: post) in
  cargo_name (cargo_toml dir) = Raise TOMLDecodeError /\
  stdout run = "" /\ exit_status run = 1%Z /\
  (exists e, uncaught run = Some e) /\
  (Forall returns pre -> uncaught run = Some TOMLDecodeError).
Proof.
  intros Hm. assert (cargo_name (cargo_toml dir) = Raise TOMLDecodeError) as Hc
    by now rewrite Hm.
  split; [exact Hc|].
  exact (main_aborts pre post dir _ (verdict_cargo_raises _ _ Hc)).
Qed.

(** A mismatched directory, then a broken manifest, then another mismatch. *)
Lemma malformed_manifest_aborts_witness :
  let bad := {| parent := "b"; cargo_toml := Malformed; earthfile := None |} in
  let off := {| parent := "a";
                cargo_toml := cdylib_manifest (Some (TString "foo")) None;
                earthfile := Some "--out=bar.wasm" |} in
  main [off; bad; off]
  = {| stdout := ""; exit_status := 1; uncaught := Some TOMLDecodeError |}.
Proof.
  intros bad off.
  destruct (malformed_manifest_aborts [off] [off] bad eq_refl)
    as (_ & Hout & Hexit & _ & He).
  assert (Forall returns [off]) as Hpre.
  { repeat constructor. now exists (Some "a: Cargo 'foo' vs Earthly 'bar'"). }
  specialize (He Hpre). cbn [app] in Hout, Hexit, He.
  destruct (main [off; bad; off]) as [out st un]. cbn in Hout, Hexit, He.
  congruence.
Defined.

(** C5.  On a recipe file with the text [text] the scanner returns [name]
    exactly when [name] is the name of the directive at the smallest offset
    of [text] that starts one; directives at larger offsets play no part.
    On the file [--out=a.wasm], line feed, [SAVE ARTIFACT x b.wasm] it
    returns [a], and a manifest that declares the cdylib [b] gets the line
    [Cargo 'b' vs Earthly 'a']. *)
Theorem earthly_name_leftmost_directive (parent : string)
    (manifest : manifest_file) (text name : string) :
  (earthly_name {| parent := parent; cargo_toml := manifest;
                   earthfile := Some text |} = Some name <->
   exists i, directive_at text i name /\
     forall j n, j < i -> ~ directive_at text j n) /\
  let dir := {| parent := parent;
                cargo_toml := cdylib_manifest (Some (TString "b")) None;
                earthfile :=
                  Some ("--out=a.wasm" +:+ newline +:+ "SAVE ARTIFACT x b.wasm") |} in
  earthly_name dir = Some "a" /\
  forall errors,
    loop_body errors dir = Ok (errors ++ [parent +:+ ": Cargo 'b' vs Earthly 'a'"])%list.
Proof.
  split; [now apply earthly_name_first|].
  intros dir. split; [reflexivity|]. intros errors.
  apply loop_body_adds, verdict_line.
  exists "b", "a". repeat split; discriminate.
Qed.

(** The first of two directives is the one at offset 4. *)
Lemma earthly_name_leftmost_directive_witness :
  exists i,
    directive_at "RUN --out=one.wasm --out=two.wasm" i "one" /\
    forall j n, j < i -> ~ directive_at "RUN --out=one.wasm --out=two.wasm" j n.
Proof.
  apply (proj1 (proj1 (earthly_name_leftmost_directive "d" Malformed
                         "RUN --out=one.wasm --out=two.wasm" "one"))).
  reflexivity.
Defined.




(** C7.  When the manifest has no [lib] table, or its [lib] table has no
    [crate-type] list, or the list does not hold [cdylib], the manifest
    parser returns [None]; whatever the recipe file of the directory holds,
    or whether there is one, the iteration adds no line, and the run is the
    run of the tree without the directory. *)
Theorem not_cdylib_no_mismatch (data : gmap string toml) (parent : string)
    (recipe : option string) :
  lacks_cdylib data ->
  let dir := {| parent := parent; cargo_toml := Parsed data;
                earthfile := recipe |} in
  cargo_name (Parsed data) = Ok None /\
  (forall errors, loop_body errors dir = Ok errors) /\
  (forall pre post, main (pre ++ dir :: post) = main (pre ++ post)).
Proof.
  intros Hl dir. pose proof (cargo_name_not_cdylib data Hl) as Hc.
  assert (verdict dir = Ok None) as Hv
    by exact (verdict_no_cargo_name dir None Hc eq_refl).
  split; [exact Hc|]. split.
  - intros errors. now apply loop_body_keeps.
  - intros pre post. now apply main_skip.
Qed.

(** An [rlib] manifest next to a recipe that names another artifact. *)
Lemma not_cdylib_no_mismatch_witness :
  let data : gmap string toml :=
    {[ "lib" := TTable {[ "crate-type" := TArray [TString "rlib"] ]};
       "package" := TTable {[ "name" := TString "foo" ]} ]} in
  loop_body [] {| parent := "d"; cargo_toml := Parsed data;
                  earthfile := Some "--out=bar.wasm" |} = Ok [].
Proof.
  intros data.
  refine (proj1 (proj2 (not_cdylib_no_mismatch data "d" (Some "--out=bar.wasm") _)) []).
  right. exists {[ "crate-type" := TArray [TString "rlib"] ]}.
  split; [reflexivity|]. right. exists [TString "rlib"].
  split; [reflexivity|]. intros [H|[]]. discriminate H.
Defined.

(** C8.  When the manifest parser returns for a directory, as it does on a
    manifest that declares a cdylib target with a name, and the directory
    has no recipe file, or one without any directive, the recipe scan
    returns [None] and the iteration adds no line; when no other directory
    of the tree adds a line or raises, the run prints nothing and exits with
    status 0. *)
Theorem missing_recipe_no_mismatch (dir : directory) (name : value) :
  cargo_name (cargo_toml dir) = Ok name ->
  (earthfile dir = None \/
   exists text, earthfile dir = Some text /\ forall i n, ~ directive_at text i n) ->
  earthly_name dir = None /\
  (forall errors, loop_body errors dir = Ok errors) /\
  (forall pre post,
     Forall (fun d => verdict d = Ok None) (pre ++ post) ->
     main (pre ++ dir :: post)
     = {| stdout := ""; exit_status := 0; uncaught := None |}).
Proof.
  intros Hc Hr.
  assert (earthly_name dir = None) as He.
  { pose proof (earthly_name_spec dir) as H.
    destruct (earthly_name dir) as [n|]; [|reflexivity].
    destruct H as (text & i & Hf & Hd & _).
    destruct Hr as [Hr|(text' & Hf' & Hnone)]; [congruence|].
    assert (text' = text) as -> by congruence. now destruct (Hnone _ _ Hd). }
  pose proof (verdict_no_earthly_name dir name Hc He) as Hv.
  split; [exact He|]. split.
  - intros errors. now apply loop_body_keeps.
  - intros pre post Hf. rewrite (main_skip pre post dir Hv).
    unfold main. now rewrite (scan_nothing [] _ Hf).
Qed.

(** A cdylib directory without recipe file, next to a consistent one. *)
Lemma missing_recipe_no_mismatch_witness :
  let alone := {| parent := "a";
                  cargo_toml := cdylib_manifest (Some (TString "foo")) None;
                  earthfile := None |} in
  let fine := {| parent := "b";
                 cargo_toml := cdylib_manifest (Some (TString "bar")) None;
                 earthfile := Some "--out=bar.wasm" |} in
  main [fine; alone] = {| stdout := ""; exit_status := 0; uncaught := None |}.
Proof.
  intros alone fine.
  refine (proj2 (proj2 (missing_recipe_no_mismatch alone (Some (TString "foo"))
                          eq_refl (or_introl eq_refl))) [fine] [] _).
  repeat constructor.
Defined.

(** C9 (amended).  On a manifest that declares a cdylib target the manifest
    parser returns the value of the [name] field of the [lib] table when
    that field is there and truthy (for a string: not empty), and the
    [name] field of the top-level [package] table when the field of [lib]
    is missing or falsy.  A line added for the directory is built from the
    name the parser returned and the name the recipe scan returned, as they
    were read. *)
Theorem cargo_name_choice (data lib : gmap string toml) (parent : string)
    (recipe : option string) :
  declares_cdylib data lib ->
  let dir := {| parent := parent; cargo_toml := Parsed data;
                earthfile := recipe |} in
  (forall v, lib !! "name" = Some v -> truthy_toml v = true ->
     cargo_name (Parsed data) = Ok (Some v)) /\
  (truthy (lib !! "name") = false ->
   forall package pname,
     data !! "package" = Some (TTable package) ->
     package !! "name" = Some pname ->
     cargo_name (Parsed data) = Ok (Some pname)) /\
  (forall errors line,
     loop_body errors dir = Ok (errors ++ [line])%list ->
     exists name e_name,
       cargo_name (Parsed data) = Ok (Some (TString name)) /\
       earthly_name dir = Some e_name /\
       line = parent +:+ ": Cargo '" +:+ name +:+ "' vs Earthly '" +:+ e_name +:+ "'").
Proof.
  intros Hd dir. pose proof (cargo_name_cdylib data lib Hd) as Hc.
  split; [|split].
  - intros v Hv Ht. rewrite Hc, Hv. simpl truthy. now rewrite Ht.
  - intros Ht package pname Hp Hn. rewrite Hc, Ht.
    simpl subscript. rewrite Hp, bind_Ok. simpl subscript.
    now rewrite Hn, bind_Ok.
  - intros errors line H. apply loop_body_adds, verdict_line in H.
    destruct H as (name & e_name & Hn & _ & He & _ & ->).
    exists name, e_name. auto.
Qed.

(** A [lib] name is returned as it is written; without one the package
    name is. *)
Lemma cargo_name_choice_witness :
  cargo_name (cdylib_manifest (Some (TString "Foo-Bar")) (Some (TString "pkg")))
  = Ok (Some (TString "Foo-Bar")) /\
  cargo_name (cdylib_manifest None (Some (TString "pkg")))
  = Ok (Some (TString "pkg")).
Proof.
  assert (forall name : option toml,
            declares_cdylib
              (<["lib" := lib_table name]>
                 {["package" := package_table (Some (TString "pkg"))]})
              (match name with
               | Some n => <["name" := n]> {["crate-type" := TArray [TString "cdylib"]]}
               | None => {["crate-type" := TArray [TString "cdylib"]]}
               end)) as Hd.
  { intros [name|]; cdylib_declared. }
  split.
  - exact (proj1 (cargo_name_choice _ _ "d" None (Hd (Some (TString "Foo-Bar"))))
             (TString "Foo-Bar") eq_refl eq_refl).
  - exact (proj1 (proj2 (cargo_name_choice _ _ "d" None (Hd None)))
             eq_refl {["name" := TString "pkg"]} (TString "pkg") eq_refl eq_refl).
Defined.

(** C9, as first stated, fails on a [lib] table whose [name] field is the
    empty string: the field is there, and the parser returns the package
    name instead of its value. *)
Lemma empty_lib_name_falls_back :
  let lib : gmap string toml :=
    <["name" := TString ""]> {["crate-type" := TArray [TString "cdylib"]]} in
  let data : gmap string toml :=
    <["lib" := TTable lib]> {["package" := TTable {["name" := TString "pkg"]}]} in
  declares_cdylib data lib /\
  lib !! "name" = Some (TString "") /\
  cargo_name (Parsed data) = Ok (Some (TString "pkg")) /\
  cargo_name (Parsed data) <> Ok (Some (TString "")).
Proof.
  intros lib data. split; [|split; [|split]].
  - cdylib_declared.
  - reflexivity.
  - reflexivity.
  - discriminate.
Qed.

(** C10.  On a manifest that declares a cdylib target, has no [name] field
    in its [lib] table, and has no [package] table or one without a [name]
    field, the manifest parser raises [KeyError].  The run that meets it
    aborts: nothing is printed on standard output and the exit status is 1,
    whatever the other directories hold; the exception that ends the run is
    this [KeyError] as soon as the iterations before it return. *)
Theorem missing_names_KeyError (data lib : gmap string toml) (parent : string)
    (recipe : option string) (pre post : list directory) :
  declares_cdylib data lib ->
  lib !! "name" = None ->
  (data !! "package" = None \/
   exists package, data !! "package" = Some (TTable package) /\
     package !! "name" = None) ->
  let dir := {| parent := parent; cargo_toml := Parsed data;
                earthfile := recipe |} in
  let run := main (pre ++ dir :: post) in
  cargo_name (Parsed data) = Raise KeyError /\
  stdout run = "" /\ exit_status run = 1%Z /\
  (exists e, uncaught run = Some e) /\
  (Forall returns pre -> uncaught run = Some KeyError).
Proof.
  intros Hd Hn Hp dir.
  assert (cargo_name (Parsed data) = Raise KeyError) as Hc.
  { rewrite (cargo_name_cdylib data lib Hd), Hn. simpl truthy. cbv iota.
    simpl subscript. destruct Hp as [->|(package & -> & Hpn)]; [reflexivity|].
    rewrite bind_Ok. simpl subscript. now rewrite Hpn. }
  split; [exact Hc|].
  exact (main_aborts pre post dir _ (verdict_cargo_raises dir _ Hc)).
Qed.

(** A cdylib manifest with no name at all, in front of a mismatch. *)
Lemma missing_names_KeyError_witness :
  let data : gmap string toml :=
    {[ "lib" := TTable {[ "crate-type" := TArray [TString "cdylib"] ]} ]} in
  let off := {| parent := "a";
                cargo_toml := cdylib_manifest (Some (TString "foo")) None;
                earthfile := Some "--out=bar.wasm" |} in
  cargo_name (Parsed data) = Raise KeyError /\
  uncaught (main [ {| parent := "d"; cargo_toml := Parsed data;
                      earthfile := None |}; off ]) = Some KeyError.
Proof.
  intros data off.
  assert (declares_cdylib data {[ "crate-type" := TArray [TString "cdylib"] ]})
    as Hd by cdylib_declared.
  destruct (missing_names_KeyError data _ "d" None [] [off] Hd eq_refl
              (or_introl eq_refl)) as (Hc & _ & _ & _ & He).
  split; [exact Hc | exact (He (List.Forall_nil _))].
Defined.

End Statements.

(** * Further properties of the script *)

(** ** The loop and the report *)

Section Run.

Lemma verdict_nothing (dir : directory) :
  verdict dir = Ok None <-> loop_body [] dir = Ok [].
Proof.
  rewrite loop_body_verdict.
  destruct (verdict dir) as [[line|]|e]; split; intros H;
    try reflexivity; discriminate.
Qed.

Lemma verdict_raises (dir : directory) (e : exn) :
  verdict dir = Raise e <-> loop_body [] dir = Raise e.
Proof.
  rewrite loop_body_verdict.
  destruct (verdict dir) as [[line|]|e0]; split; intros H;
    try discriminate; congruence.
Qed.

(** The loop started on [errors] is the loop started on the empty list,
    with [errors] in front of what it collects. *)
Lemma scan_from (errors : list string) (tree : list directory) :
  scan errors tree =
  match scan [] tree with
  | Ok new => Ok (errors ++ new)%list
  | Raise e => Raise e
  end.
Proof.
  revert errors; induction tree as [|d tree IH]; intros errors.
  - simpl. now rewrite app_nil_r.
  - rewrite !scan_cons, !loop_body_verdict.
    destruct (verdict d) as [[line|]|e]; rewrite ?bind_Ok; [| |reflexivity].
    + rewrite (IH (errors ++ [line])%list), (IH ([] ++ [line])%list).
      destruct (scan [] tree); [|reflexivity]. now rewrite <- app_assoc.
    + rewrite (IH errors). destruct (scan [] tree); reflexivity.
Qed.

Lemma omap_id_nil (lines : list (option string)) :
  omap id lines = [] <-> Forall (fun o => o = None) lines.
Proof.
  induction lines as [|[l|] lines IH]; simpl.
  - split; [constructor | reflexivity].
  - split; [discriminate | intros H; inversion H; discriminate].
  - rewrite IH. split; [now constructor | intros H; now inversion H].
Qed.

Lemma scan_empty_iff (tree : list directory) :
  scan [] tree = Ok [] <-> Forall (fun d => loop_body [] d = Ok []) tree.
Proof.
  split.
  - intros H. destruct (scan_Ok _ _ _ H) as (lines & Hf & Hl).
    simpl in Hl. symmetry in Hl. apply omap_id_nil in Hl.
    clear H. induction Hf as [|d o tree lines Hd _ IH]; [constructor|].
    inversion Hl; subst. constructor; [now apply verdict_nothing | auto].
  - intros H. apply scan_nothing.
    eapply List.Forall_impl; [|exact H]. intros d. apply verdict_nothing.
Qed.

Lemma append_newline_nonempty (s : string) : s +:+ newline <> "".
Proof. destruct s; discriminate. Qed.

(** X1.  The run exits with status 0 exactly when every iteration leaves
    the list of errors empty; the only other status is 1, and whenever
    something is printed on standard output the status is 1 and no
    exception escaped. *)
Theorem exit_status_zero_iff (tree : list directory) :
  (exit_status (main tree) = 0%Z <->
   Forall (fun d => loop_body [] d = Ok []) tree) /\
  (exit_status (main tree) = 0%Z \/ exit_status (main tree) = 1%Z) /\
  (stdout (main tree) <> "" <->
   exit_status (main tree) = 1%Z /\ uncaught (main tree) = None).
Proof.
  rewrite <- scan_empty_iff. unfold main.
  destruct (scan [] tree) as [[|l errors]|e]; cbn [stdout exit_status uncaught].
  - split; [tauto|]. split; [now left|]. split; [congruence | intros [H _]; discriminate].
  - split; [split; discriminate|]. split; [now right|].
    split; [auto|]. intros _. apply append_newline_nonempty.
  - split; [split; discriminate|]. split; [now right|].
    split; [congruence | intros [_ H]; discriminate].
Qed.

(** A tree of one consistent directory exits with status 0. *)
Lemma exit_status_zero_iff_witness :
  exit_status
    (main [ {| parent := "a";
               cargo_toml := cdylib_manifest (Some (TString "foo")) None;
               earthfile := Some "--out=foo.wasm" |} ]) = 0%Z.
Proof.
  apply (proj2 (proj1 (exit_status_zero_iff _))).
  repeat constructor.
Defined.

(** X2.  The loop over a tree made of two parts returns normally exactly
    when the loops over both parts do, and then collects the lines of the
    first part followed by the lines of the second. *)
Theorem scan_concat (pre post : list directory) (errors : list string) :
  scan [] (pre ++ post) = Ok errors <->
  exists e1 e2,
    scan [] pre = Ok e1 /\ scan [] post = Ok e2 /\ errors = (e1 ++ e2)%list.
Proof.
  rewrite scan_app. split.
  - destruct (scan [] pre) as [e1|e]; [|discriminate].
    rewrite bind_Ok, scan_from.
    destruct (scan [] post) as [e2|e]; [|discriminate].
    intros [= <-]. now exists e1, e2.
  - intros (e1 & e2 & -> & H2 & ->). rewrite bind_Ok, scan_from, H2. reflexivity.
Qed.

(** Two mismatched directories, scanned apart and together. *)
Lemma scan_concat_witness :
  let off name := {| parent := name;
                     cargo_toml := cdylib_manifest (Some (TString "foo")) None;
                     earthfile := Some "--out=bar.wasm" |} in
  scan [] ([off "a"] ++ [off "b"])
  = Ok ["a: Cargo 'foo' vs Earthly 'bar'"; "b: Cargo 'foo' vs Earthly 'bar'"].
Proof.
  intros off. apply (proj2 (scan_concat [off "a"] [off "b"] _)).
  exists ["a: Cargo 'foo' vs Earthly 'bar'"], ["b: Cargo 'foo' vs Earthly 'bar'"].
  repeat split.
Defined.

(** X3.  The loop only appends: when it returns, the list it was started on
    is still the beginning of the result, and at most one line was added
    for each directory. *)
Theorem scan_only_appends (tree : list directory) (errors errors' : list string) :
  scan errors tree = Ok errors' ->
  exists new, errors' = (errors ++ new)%list /\ length new <= length tree.
Proof.
  intros H. destruct (scan_Ok _ _ _ H) as (lines & Hf & ->).
  exists (omap id lines). split; [reflexivity|].
  rewrite (Forall2_length _ _ _ Hf). clear.
  induction lines as [|[l|] lines IH]; unfold omap in *; simpl; lia.
Qed.

(** Two directories, one of them mismatched, on a list of one line. *)
Lemma scan_only_appends_witness :
  let tree := [ {| parent := "a";
                   cargo_toml := cdylib_manifest (Some (TString "foo")) None;
                   earthfile := Some "--out=foo.wasm" |};
                {| parent := "b";
                   cargo_toml := cdylib_manifest (Some (TString "foo")) None;
                   earthfile := Some "--out=bar.wasm" |} ] in
  exists new,
    ["earlier"; "b: Cargo 'foo' vs Earthly 'bar'"] = (["earlier"] ++ new)%list /\
    length new <= 2.
Proof.
  intros tree.
  exact (scan_only_appends tree ["earlier"]
           ["earlier"; "b: Cargo 'foo' vs Earthly 'bar'"] eq_refl).
Defined.

(** X4.  When the iteration on a directory raises, the run does not depend
    on the directories after it, and nothing is printed on standard output
    even when the directories before it added lines. *)
Theorem abort_ignores_rest (pre post post' : list directory) (dir : directory)
    (e : exn) :
  loop_body [] dir = Raise e ->
  main (pre ++ dir :: post) = main (pre ++ dir :: post') /\
  stdout (main (pre ++ dir :: post)) = "" /\
  exit_status (main (pre ++ dir :: post)) = 1%Z.
Proof.
  intros H. apply verdict_raises in H.
  assert (forall rest, scan [] (pre ++ dir :: rest)
                       = (scan [] pre ≫= fun _ => Raise e)) as Hs.
  { intros rest. rewrite scan_app.
    destruct (scan [] pre) as [e1|e0]; [|reflexivity].
    now rewrite !bind_Ok, scan_cons, loop_body_verdict, H. }
  unfold main. rewrite (Hs post), (Hs post').
  split; [reflexivity|]. now destruct (scan [] pre).
Qed.

(** A mismatch, then a manifest without any name, then anything. *)
Lemma abort_ignores_rest_witness :
  let off := {| parent := "a";
                cargo_toml := cdylib_manifest (Some (TString "foo")) None;
                earthfile := Some "--out=bar.wasm" |} in
  let bad := {| parent := "b"; cargo_toml := cdylib_manifest None None;
                earthfile := None |} in
  main [off; bad; off; off] = main [off; bad] /\
  stdout (main [off; bad; off; off]) = "".
Proof.
  intros off bad.
  destruct (abort_ignores_rest [off] [off; off] [] bad KeyError eq_refl)
    as (H1 & H2 & _).
  split; [exact H1 | exact H2].
Defined.

End Run.

(** ** More on the recipe scanner *)

Section Scanner.

(** X5.  The recipe scan returns [None] exactly when the directory has no
    recipe file or the file holds no directive at any offset: a directive
    anywhere in the file is never missed. *)
Theorem earthly_name_None_iff (dir : directory) :
  earthly_name dir = None <->
  earthfile dir = None \/
  exists text, earthfile dir = Some text /\ forall i n, ~ directive_at text i n.
Proof.
  pose proof (earthly_name_spec dir) as H. split.
  - intros E. now rewrite E in H.
  - intros Hr. destruct (earthly_name dir) as [name|]; [|reflexivity].
    destruct H as (text & i & Hf & Hd & _).
    destruct Hr as [Hr|(text' & Hf' & Hnone)]; [congruence|].
    assert (text' = text) as -> by congruence. now destruct (Hnone _ _ Hd).
Qed.

(** A recipe with a directive in its second line is not scanned to [None]. *)
Lemma earthly_name_None_iff_witness :
  earthly_name {| parent := "d"; cargo_toml := Malformed;
                  earthfile := Some ("FROM scratch" +:+ newline +:+
                                     "RUN cc --out=mod.wasm") |} <> None.
Proof.
  intros H. apply (proj1 (earthly_name_None_iff _)) in H.
  destruct H as [H|(text & [= <-] & Hnone)]; [discriminate|].
  apply (Hnone 20 "mod").
  exists ("FROM scratch" +:+ newline +:+ "RUN cc "), "--out=mod.wasm".
  split; [reflexivity|]. split; [reflexivity|].
  exists "--out=", "". split; [now left|]. split; [discriminate|].
  split; reflexivity.
Defined.

Lemma count_char_name (name : string) :
  all_chars name_char name = true -> count_char "010" name = 0.
Proof.
  induction name as [|c name IH]; [reflexivity|]. simpl.
  intros H. apply andb_prop in H as [Hc Hn]. rewrite (IH Hn).
  destruct (Ascii.eqb_spec c "010"%char) as [->|]; [discriminate | reflexivity].
Qed.

(** X6.  A name returned by the recipe scan is not empty, is made of
    letters, digits, underscores and hyphens only, so it holds no line
    feed, and stands in the file between one of the two keywords and the
    [.wasm] suffix. *)
Theorem earthly_name_shape (dir : directory) (name : string) :
  earthly_name dir = Some name ->
  name <> "" /\ all_chars name_char name = true /\
  count_char "010" name = 0 /\
  exists text before kw rest,
    earthfile dir = Some text /\
    (kw = "--out=" \/ kw = "SAVE ARTIFACT ") /\
    text = before +:+ kw +:+ name +:+ ".wasm" +:+ rest.
Proof.
  intros E. pose proof (earthly_name_spec dir) as H. rewrite E in H.
  destruct H as (text & i & Hf & (pre & s & -> & _ & Hd) & _).
  destruct Hd as (kw & rest & Hkw & Hne & Ha & ->).
  split; [exact Hne|]. split; [exact Ha|].
  split; [now apply count_char_name|].
  now exists (pre +:+ kw +:+ name +:+ ".wasm" +:+ rest), pre, kw, rest.
Qed.

(** The name of a recipe that saves [my_mod-2.wasm]. *)
Lemma earthly_name_shape_witness :
  all_chars name_char "my_mod-2" = true /\ count_char "010" "my_mod-2" = 0.
Proof.
  destruct (earthly_name_shape
              {| parent := "d"; cargo_toml := Malformed;
                 earthfile := Some "SAVE ARTIFACT my_mod-2.wasm AS LOCAL out" |}
              "my_mod-2" eq_refl) as (_ & Ha & Hc & _).
  split; [exact Ha | exact Hc].
Defined.

Lemma normalize_char_plain (c : ascii) :
  name_char c = true -> plain_char (normalize_char c) = true.
Proof.
  destruct c as [[] [] [] [] [] [] [] []]; vm_compute; intros H;
    try discriminate H; reflexivity.
Qed.

Lemma lower_replace_plain (name : string) :
  all_chars name_char name = true ->
  all_chars plain_char (lower (replace "-" "_" name)) = true.
Proof.
  induction name as [|c name IH]; [reflexivity|].
  rewrite lower_replace_cons. simpl. intros H.
  apply andb_prop in H as [Hc Hn].
  now rewrite (normalize_char_plain _ Hc), (IH Hn).
Qed.

(** X7.  On a name returned by the recipe scan [normalize] never raises and
    never returns [None]: it returns a non-empty string of lower-case
    letters, digits and underscores. *)
Theorem normalize_earthly_name (dir : directory) (name : string) :
  earthly_name dir = Some name ->
  exists r,
    normalize (Some (TString name)) = Ok (Some r) /\
    r <> "" /\ all_chars plain_char r = true.
Proof.
  intros E. destruct (earthly_name_shape dir name E) as (Hne & Ha & _).
  exists (lower (replace "-" "_" name)).
  split; [now apply normalize_str|].
  split; [now apply lower_replace_nonempty | now apply lower_replace_plain].
Qed.

(** The recipe name [My-Mod_9] normalizes to [my_mod_9]. *)
Lemma normalize_earthly_name_witness :
  exists r,
    normalize (Some (TString "My-Mod_9")) = Ok (Some r) /\
    r <> "" /\ all_chars plain_char r = true.
Proof.
  exact (normalize_earthly_name
           {| parent := "d"; cargo_toml := Malformed;
              earthfile := Some "--out=My-Mod_9.wasm" |} "My-Mod_9" eq_refl).
Defined.

Lemma similar_nonempty (a b : string) : similar a b -> b <> "" -> a <> "".
Proof. intros Hs Hb. destruct Hs; [exact Hb | discriminate]. Qed.

(** X8.  A directory whose manifest name and recipe name differ only by
    hyphen against underscore and by letter case is not reported: the
    iteration leaves the list of errors as it was. *)
Theorem similar_names_not_reported (dir : directory) (name e_name : string)
    (errors : list string) :
  cargo_name (cargo_toml dir) = Ok (Some (TString name)) ->
  earthly_name dir = Some e_name ->
  similar name e_name ->
  loop_body errors dir = Ok errors.
Proof.
  intros Hc He Hs.
  pose proof (earthly_name_nonempty _ _ He) as Hne.
  pose proof (similar_nonempty _ _ Hs Hne) as Hn.
  unfold loop_body.
  rewrite Hc, bind_Ok, (proj2 (truthy_str name) Hn), He,
    (proj2 (truthy_str e_name) Hne).
  simpl negb.
  rewrite (normalize_str _ Hne), bind_Ok, (normalize_str _ Hn), bind_Ok.
  rewrite (lower_replace_similar _ _ Hs).
  case_bool_decide; [reflexivity | congruence].
Qed.

(** The manifest says [foo-bar], the recipe [foo_bar]. *)
Lemma similar_names_not_reported_witness :
  loop_body [] {| parent := "d";
                  cargo_toml := cdylib_manifest (Some (TString "foo-bar")) None;
                  earthfile := Some "--out=foo_bar.wasm" |} = Ok [].
Proof.
  apply (similar_names_not_reported _ "foo-bar" "foo_bar" []); try reflexivity.
  do 3 (constructor; [apply similar_same|]).
  constructor; [apply similar_punct; auto|].
  do 3 (constructor; [apply similar_same|]).
  constructor.
Defined.

End Scanner.

(** ** More on the manifest parser *)

Section Parser.

(** The parser after the [crate-type] entry [types] of the [lib] table has
    been read: the outcome of the membership test decides. *)
Lemma cargo_name_crate_type (data lib : gmap string toml) (types : toml) :
  data !! "lib" = Some (TTable lib) ->
  lib !! "crate-type" = Some types ->
  cargo_name (Parsed data) =
  match contains "cdylib" types with
  | Raise e => Raise e
  | Ok false => Ok None
  | Ok true =>
      if truthy (lib !! "name") then Ok (lib !! "name")
      else (package ← subscript (TTable data) "package";
            pname ← subscript package "name";
            Ok (Some pname))
  end.
Proof.
  intros Hlib Hct. unfold cargo_name. simpl loads.
  rewrite bind_Ok, Hlib. simpl default. simpl get. rewrite !bind_Ok, Hct.
  simpl default. destruct (contains "cdylib" types) as [[|]|e]; reflexivity.
Qed.

(** Once the marker is found the parser returns a name or raises. *)
Lemma name_choice_not_None (data lib : gmap string toml) :
  (if truthy (lib !! "name") then Ok (lib !! "name")
   else (package ← subscript (TTable data) "package";
         pname ← subscript package "name";
         Ok (Some pname))) <> Ok None.
Proof.
  destruct (lib !! "name") as [v|]; simpl truthy.
  - destruct (truthy_toml v); [discriminate|].
    destruct (subscript (TTable data) "package") as [p|]; [|discriminate].
    rewrite bind_Ok. destruct (subscript p "name"); discriminate.
  - destruct (subscript (TTable data) "package") as [p|]; [|discriminate].
    rewrite bind_Ok. destruct (subscript p "name"); discriminate.
Qed.

(** X9.  When [crate-type] is a list, the parser returns [None] exactly
    when the list does not hold the string [cdylib]; when it does, the
    parser returns a name or raises. *)
Theorem cargo_name_None_iff (data lib : gmap string toml) (types : list toml) :
  data !! "lib" = Some (TTable lib) ->
  lib !! "crate-type" = Some (TArray types) ->
  cargo_name (Parsed data) = Ok None <-> ~ In (TString "cdylib") types.
Proof.
  intros Hlib Hct. rewrite (cargo_name_crate_type data lib _ Hlib Hct).
  simpl contains. rewrite <- existsb_eq_str.
  destruct (existsb (eq_str "cdylib") types).
  - split; [intros H; now destruct (name_choice_not_None data lib) | congruence].
  - split; [discriminate | reflexivity].
Qed.

(** A list that names [cdylib] after [rlib] is not taken for "no cdylib". *)
Lemma cargo_name_None_iff_witness :
  let lib : gmap string toml :=
    {[ "crate-type" := TArray [TString "rlib"; TString "cdylib"] ]} in
  cargo_name (Parsed {[ "lib" := TTable lib ]}) <> Ok None.
Proof.
  intros lib H.
  assert (({[ "lib" := TTable lib ]} : gmap string toml) !! "lib"
          = Some (TTable lib)) as Hlib by reflexivity.
  assert (lib !! "crate-type" = Some (TArray [TString "rlib"; TString "cdylib"]))
    as Hct by reflexivity.
  apply (proj1 (cargo_name_None_iff _ _ _ Hlib Hct)) in H.
  apply H. right. now left.
Defined.

Lemma str_contains_unfold (needle hay : string) :
  str_contains needle hay =
  match strip_prefix needle hay with
  | Some _ => true
  | None =>
      match hay with
      | EmptyString => false
      | String _ hay' => str_contains needle hay'
      end
  end.
Proof. destruct hay; reflexivity. Qed.

(** [needle in hay] holds exactly when [needle] occurs in [hay]. *)
Lemma str_contains_spec (needle hay : string) :
  str_contains needle hay = true <->
  exists before after, hay = before +:+ needle +:+ after.
Proof.
  induction hay as [|c hay IH]; rewrite str_contains_unfold.
  - destruct (strip_prefix needle "") as [s'|] eqn:E.
    + apply strip_prefix_Some in E. split; [|reflexivity].
      intros _. now exists "", s'.
    + split; [discriminate|]. intros (before & after & H).
      destruct before; [|discriminate]. rewrite app_nil_str in H.
      rewrite H, strip_prefix_app in E. discriminate.
  - destruct (strip_prefix needle (String c hay)) as [s'|] eqn:E.
    + apply strip_prefix_Some in E. split; [|reflexivity].
      intros _. now exists "", s'.
    + rewrite IH. split.
      * intros (before & after & ->). now exists (String c before), after.
      * intros (before & after & H). destruct before as [|c' before].
        -- rewrite app_nil_str in H. rewrite H, strip_prefix_app in E.
           discriminate.
        -- rewrite app_cons_str in H. injection H as _ H. now exists before, after.
Qed.

(** X10.  When [crate-type] is written as one string instead of a list, the
    membership test is a substring test: the parser returns [None] exactly
    when [cdylib] does not occur in the string. *)
Theorem crate_type_string (data lib : gmap string toml) (s : string) :
  data !! "lib" = Some (TTable lib) ->
  lib !! "crate-type" = Some (TString s) ->
  cargo_name (Parsed data) = Ok None <->
  ~ exists before after, s = before +:+ "cdylib" +:+ after.
Proof.
  intros Hlib Hct. rewrite (cargo_name_crate_type data lib _ Hlib Hct).
  simpl contains. rewrite <- str_contains_spec.
  destruct (str_contains "cdylib" s).
  - split; [intros H; now destruct (name_choice_not_None data lib) | congruence].
  - split; [discriminate | reflexivity].
Qed.

(** [crate-type = "staticlib,cdylib"] is taken for a cdylib target. *)
Lemma crate_type_string_witness :
  let lib : gmap string toml :=
    {[ "crate-type" := TString "staticlib,cdylib"; "name" := TString "foo" ]} in
  cargo_name (Parsed {[ "lib" := TTable lib ]}) <> Ok None.
Proof.
  intros lib H.
  assert (({[ "lib" := TTable lib ]} : gmap string toml) !! "lib"
          = Some (TTable lib)) as Hlib by reflexivity.
  assert (lib !! "crate-type" = Some (TString "staticlib,cdylib"))
    as Hct by reflexivity.
  apply (proj1 (crate_type_string _ _ _ Hlib Hct)) in H.
  apply H. now exists "staticlib,", "".
Defined.

(** X11.  When [crate-type] is an integer, a boolean, a float or a date,
    the membership test raises [TypeError] and so does the parser. *)
Theorem crate_type_scalar (data lib : gmap string toml) (v : toml) :
  data !! "lib" = Some (TTable lib) ->
  lib !! "crate-type" = Some v ->
  is_container v = false ->
  cargo_name (Parsed data) = Raise TypeError.
Proof.
  intros Hlib Hct Hv. rewrite (cargo_name_crate_type data lib _ Hlib Hct).
  destruct v; try discriminate Hv; reflexivity.
Qed.

Lemma crate_type_scalar_witness :
  cargo_name (Parsed {[ "lib" := TTable {[ "crate-type" := TBool true ]} ]})
  = Raise TypeError.
Proof.
  apply (crate_type_scalar _ {[ "crate-type" := TBool true ]} (TBool true));
    reflexivity.
Defined.

(** X12.  When the top-level [lib] entry is not a table, the parser raises
    [AttributeError], whatever else the manifest holds, and so does the
    iteration on the directory. *)
Theorem lib_not_a_table (data : gmap string toml) (v : toml) (parent : string)
    (recipe : option string) (errors : list string) :
  data !! "lib" = Some v ->
  is_table v = false ->
  cargo_name (Parsed data) = Raise AttributeError /\
  loop_body errors {| parent := parent; cargo_toml := Parsed data;
                      earthfile := recipe |} = Raise AttributeError.
Proof.
  intros Hlib Hv.
  assert (cargo_name (Parsed data) = Raise AttributeError) as Hc.
  { unfold cargo_name. simpl loads. rewrite bind_Ok, Hlib. simpl default.
    destruct v; try discriminate Hv; reflexivity. }
  split; [exact Hc|]. unfold loop_body. simpl cargo_toml. now rewrite Hc.
Qed.

Lemma lib_not_a_table_witness :
  cargo_name (Parsed {[ "lib" := TString "cdylib";
                        "package" := TTable {[ "name" := TString "foo" ]} ]})
  = Raise AttributeError.
Proof.
  apply (fun H1 H2 => proj1 (lib_not_a_table _ (TString "cdylib") "d" None [] H1 H2));
    reflexivity.
Defined.

(** X13.  On a manifest that declares a cdylib target and has no truthy
    [name] in its [lib] table, a top-level [package] entry that is not a
    table makes the parser raise [TypeError]. *)
Theorem package_not_a_table (data lib : gmap string toml) (v : toml) :
  declares_cdylib data lib ->
  truthy (lib !! "name") = false ->
  data !! "package" = Some v ->
  is_table v = false ->
  cargo_name (Parsed data) = Raise TypeError.
Proof.
  intros Hd Hn Hp Hv. rewrite (cargo_name_cdylib data lib Hd), Hn.
  simpl subscript. rewrite Hp, bind_Ok.
  destruct v; try discriminate Hv; reflexivity.
Qed.

Lemma package_not_a_table_witness :
  cargo_name (Parsed {[ "lib" := lib_table None; "package" := TString "foo" ]})
  = Raise TypeError.
Proof.
  apply (package_not_a_table _ {[ "crate-type" := TArray [TString "cdylib"] ]}
           (TString "foo")); try reflexivity.
  cdylib_declared.
Defined.

End Parser.

(** ** More on the normalizer *)

Section Names.

(** X14.  [normalize] returns [None] exactly on the falsy values ([None],
    the empty string, zero, an empty list or table).  It raises exactly on
    the truthy values that are not strings: [TypeError] on a date or a
    time, whose [replace] method takes integers, and [AttributeError] on
    the others, which have no such method. *)
Theorem normalize_edges (v : value) :
  (normalize v = Ok None <-> truthy v = false) /\
  (forall e, normalize v = Raise e <->
     exists t, v = Some t /\ truthy_toml t = true /\ is_string t = false /\
       e = replace_error t).
Proof.
  unfold normalize. destruct (truthy v) eqn:Ht; simpl negb; cbv iota.
  - split.
    + destruct v as [[s| | | | | |]|]; split; discriminate.
    + intros e. split.
      * destruct v as [[s| | | | | |]|]; try discriminate;
          intros [= <-]; eexists; repeat split; exact Ht.
      * intros (t & -> & _ & Hs & ->).
        destruct t; try discriminate Hs; reflexivity.
  - split; [tauto|]. intros e. split; [discriminate|].
    intros (t & -> & Ht' & _). simpl in Ht. congruence.
Qed.

(** The integer 7 has no [replace] method, a date has one that rejects the
    two strings, and the integer 0 is falsy. *)
Lemma normalize_edges_witness :
  normalize (Some (TInteger 7)) = Raise AttributeError /\
  normalize (Some TDateTime) = Raise TypeError /\
  normalize (Some (TInteger 0)) = Ok None.
Proof.
  split; [|split].
  - apply (proj2 (normalize_edges (Some (TInteger 7)))).
    exists (TInteger 7). repeat split.
  - apply (proj2 (normalize_edges (Some TDateTime))).
    exists TDateTime. repeat split.
  - now apply (proj1 (normalize_edges (Some (TInteger 0)))).
Defined.

Lemma normalize_char_fixed (c : ascii) :
  normalize_char c = c <-> settled_char c = true.
Proof.
  destruct c as [[] [] [] [] [] [] [] []]; vm_compute;
    split; intros H; try reflexivity; discriminate H.
Qed.

Lemma lower_replace_fixed (s : string) :
  lower (replace "-" "_" s) = s <-> all_chars settled_char s = true.
Proof.
  induction s as [|c s IH]; [now split|].
  rewrite lower_replace_cons. simpl all_chars. rewrite andb_true_iff, <- IH,
    <- normalize_char_fixed.
  split; [intros [= Hc Hs]; now split | intros [-> ->]; reflexivity].
Qed.

(** X15.  A non-empty name over the code points U+0000..U+00FF is left
    unchanged by [normalize] exactly when it holds no hyphen and no
    upper-case letter. *)
Theorem normalize_fixed_point (s : string) :
  s <> "" ->
  normalize (Some (TString s)) = Ok (Some s) <-> all_chars settled_char s = true.
Proof.
  intros Hs. rewrite (normalize_str _ Hs), <- lower_replace_fixed.
  split; [intros [= H]; exact H | now intros ->].
Qed.

Lemma normalize_fixed_point_witness :
  normalize (Some (TString "foo_bar9")) = Ok (Some "foo_bar9").
Proof.
  apply (proj2 (normalize_fixed_point "foo_bar9" ltac:(discriminate))).
  reflexivity.
Defined.

(** X16.  When the manifest parser returns a truthy value that is not a
    string, the iteration raises if the recipe scan returns a name:
    [TypeError] when the value is a date or a time, [AttributeError]
    otherwise (an integer name, say); it leaves the list of errors as it
    was if the recipe scan returns [None]. *)
Theorem name_not_a_string (dir : directory) (v : toml) (errors : list string) :
  cargo_name (cargo_toml dir) = Ok (Some v) ->
  truthy_toml v = true ->
  is_string v = false ->
  (forall e_name, earthly_name dir = Some e_name ->
     loop_body errors dir = Raise (replace_error v)) /\
  (earthly_name dir = None -> loop_body errors dir = Ok errors).
Proof.
  intros Hc Ht Hv. split.
  - intros e_name He. pose proof (earthly_name_nonempty _ _ He) as Hne.
    unfold loop_body.
    rewrite Hc, bind_Ok, He, (proj2 (truthy_str e_name) Hne). simpl truthy.
    rewrite Ht. simpl negb. rewrite (normalize_str _ Hne), bind_Ok.
    unfold normalize. simpl truthy. rewrite Ht.
    destruct v; try discriminate Hv; reflexivity.
  - intros He. apply loop_body_keeps.
    exact (verdict_no_earthly_name dir _ Hc He).
Qed.

(** A [lib] table with [name = 7], and one with [name = 1979-05-27]. *)
Lemma name_not_a_string_witness :
  loop_body [] {| parent := "d";
                  cargo_toml := cdylib_manifest (Some (TInteger 7)) None;
                  earthfile := Some "--out=seven.wasm" |}
  = Raise AttributeError /\
  loop_body [] {| parent := "d";
                  cargo_toml := cdylib_manifest (Some TDateTime) None;
                  earthfile := Some "--out=seven.wasm" |}
  = Raise TypeError.
Proof.
  split.
  - apply (fun H1 H2 H3 =>
             proj1 (name_not_a_string _ (TInteger 7) [] H1 H2 H3) "seven");
      reflexivity.
  - apply (fun H1 H2 H3 =>
             proj1 (name_not_a_string _ TDateTime [] H1 H2 H3) "seven");
      reflexivity.
Defined.

End Names.
